(** * The Taro service kernel: plugin resolution and the hook runner

    A shallow embedding of [packages/taro-service/src/Kernel.ts].  The
    kernel is a class whose methods mutate its fields, throw, and call
    into plugin code; the embedding threads a [World] (the kernel
    object, the arrays the kernel allocates, and a log of the plugin
    code it has entered) through a small state-and-exception monad.

    Plugin code is modelled by what the kernel can see of it.  A hook
    handler is a function of its two arguments, and of the contents of
    the arrays they refer to, to a returned value or a thrown error; an
    [async] handler that rejects is a handler that throws.  The setup
    function of a preset or plugin is a function on the four registries
    that may throw, and the presets and plugins a preset declares are
    part of the resolved item.  The order of the taps of a hook chain is
    that of tapable's [Hook._insert]. *)

From Stdlib Require Import ZArith Lia.
From stdpp Require Import gmap strings list sorting.

Local Open Scope string_scope.
Local Open Scope Z_scope.
Local Open Scope list_scope.

Set Warnings "-register-all".

(** ** JavaScript values *)

(** Arrays that the kernel allocates and keeps mutating while plugin
    code holds them (the [resArr] of [applyPlugins]) live in the heap
    and are denoted by their address, [VRef].  Arrays and objects that
    the kernel only reads are denoted by their contents. *)
Definition loc := nat.

Inductive value :=
| VUndefined
| VNull
| VBool (b : bool)
| VNum (n : Z)
| VStr (s : string)
| VArr (xs : list value)
| VObj (fields : list (string * value))
| VRef (l : loc).

(** What the kernel itself throws, and what comes up from plugin code. *)
Inductive error :=
| EPluginRegistered (id : string)   (* new Error: plugin <id> is already registered *)
| EInvalidName                      (* new Error: applyPlugins without a proper name *)
| ENoPlatform (platform : value)    (* the string thrown by runWithPlatform *)
| ENoCommand (name : value)         (* new Error: command <name> does not exist *)
| ETypeError (what : string)        (* raised by the language or by path.join *)
| EMissingTapName                   (* tapable: new Error("Missing name for tapPromise") *)
| EThrown (v : value).              (* anything plugin code or a collaborator throws *)

Inductive outcome (A : Type) :=
| Ok (a : A)
| Throw (e : error).
Arguments Ok {A} a.
Arguments Throw {A} e.

(** [typeof v === 'string'] *)
Definition is_string (v : value) : bool :=
  match v with VStr _ => true | _ => false end.

(** Truthiness, as used by [if (x)] and [x || y]. *)
Definition truthy (v : value) : bool :=
  match v with
  | VUndefined | VNull => false
  | VBool b => b
  | VNum n => negb (Z.eqb n 0)
  | VStr s => negb (String.eqb s EmptyString)
  | VArr _ | VObj _ | VRef _ => true
  end.

(** [a || b] *)
Definition js_or (a b : value) : value := if truthy a then a else b.

Fixpoint assoc (key : string) (fields : list (string * value)) : option value :=
  match fields with
  | [] => None
  | (k, v) :: rest => if String.eqb k key then Some v else assoc key rest
  end.

(** [v.key]: reading a property of [undefined] or [null] is a TypeError;
    on an object it is the field or [undefined]; the names read by the
    kernel are not properties of primitives or of plain arrays. *)
Definition get_prop (v : value) (key : string) : outcome value :=
  match v with
  | VUndefined | VNull => Throw (ETypeError key)
  | VObj fields => Ok (default VUndefined (assoc key fields))
  | _ => Ok VUndefined
  end.

Fixpoint assoc_set (key : string) (x : value) (fields : list (string * value))
  : list (string * value) :=
  match fields with
  | [] => [(key, x)]
  | (k, v) :: rest =>
      if String.eqb k key then (k, x) :: rest else (k, v) :: assoc_set key x rest
  end.

(** [v.key = x] in strict mode.  The kernel only assigns to [opts] after
    [opts.platform] was read truthy, which in this value model makes
    [opts] an object. *)
Definition set_prop (v : value) (key : string) (x : value) : outcome value :=
  match v with
  | VObj fields => Ok (VObj (assoc_set key x fields))
  | _ => Throw (ETypeError key)
  end.

(** ** The records of [utils/types] *)

Inductive PluginType := Preset | Plugin.

(** [before?: string | string[]] of a hook. *)
Inductive Before :=
| BNone
| BStr (s : string)
| BArr (l : list string).

Definition heap := list (list value).

(** A hook handler is modelled by what it returns or throws (rejects
    with), given its two arguments and the contents of the arrays they
    may refer to.  Handlers that write to the kernel or to the array
    they are handed, and handlers that call back into the kernel (they
    can reach [applyPlugins] through the plugin context), are outside
    this model; the properties that depend on this say so. *)
Definition handler := value -> value -> heap -> outcome value.

Record IHook := {
  hook_name : string;
  hook_plugin : string;
  hook_stage : option Z;
  hook_before : Before;
  hook_fn : handler
}.

Record ICommand := {
  command_name : string;
  command_fn : handler
}.

Record IPlatform := {
  platform_name : string;
  useConfigName : string;
  platform_fn : handler
}.

(** ** tapable's AsyncSeriesWaterfallHook (version 1, the one the
    package depends on) *)

Record Tap (F : Type) := {
  tap_name : string;
  tap_stage : Z;
  tap_before : Before;
  tap_fn : F
}.
Arguments tap_name {F} _.
Arguments tap_stage {F} _.
Arguments tap_before {F} _.
Arguments tap_fn {F} _.

(** The [Set] built from [item.before]; absent and empty behave alike
    in [_insert]. *)
Definition before_set (b : Before) : list string :=
  match b with
  | BNone => []
  | BStr s => [s]
  | BArr l => l
  end.

Definition remove_name (n : string) (l : list string) : list string :=
  filter (λ x, x ≠ n) l.

(** The [while (i > 0)] loop of [Hook._insert], walking the existing
    taps from the last one down; [rtaps] is the tap list reversed and
    so is the result. *)
Fixpoint insert_down {F} (item : Tap F) (before : list string) (rtaps : list (Tap F))
  : list (Tap F) :=
  match rtaps with
  | [] => [item]
  | x :: rest =>
      if bool_decide (tap_name x ∈ before) then
        x :: insert_down item (remove_name (tap_name x) before) rest
      else if negb (bool_decide (before = [])) then
        x :: insert_down item before rest
      else if Z.ltb (tap_stage item) (tap_stage x) then
        x :: insert_down item before rest
      else item :: x :: rest
  end.

Definition _insert {F} (item : Tap F) (taps : list (Tap F)) : list (Tap F) :=
  rev (insert_down item (before_set (tap_before item)) (rev taps)).

(** [tapPromise(options, fn)]: refuses a missing or empty name. *)
Definition tapPromise {F} (item : Tap F) (taps : list (Tap F)) : outcome (list (Tap F)) :=
  if String.eqb (tap_name item) EmptyString then Throw EMissingTapName
  else Ok (_insert item taps).

(** ** Kernel state *)

(** A method grafted onto the kernel by [registerMethod]: a function
    object, of which only the grafting plugin and the name are kept. *)
Record Method := {
  method_owner : string;
  method_name : string
}.

(** The four maps created by the constructor; they are what plugin
    code writes to through its context. *)
Record Registry := {
  hooks : gmap string (list IHook);
  methods : gmap string Method;
  commands : gmap string ICommand;
  platforms : gmap string IPlatform
}.

(** What [initPluginCtx] puts on the context object, kept apart field by
    field: the identity of the plugin, the forwarded kernel surfaces and
    the methods grafted so far.  On the object itself the methods are
    assigned last, each under its own name, so that a method named like
    one of the other properties hides it; and [plugins] is the kernel's
    map itself, of which the record keeps the ids registered when the
    context is made.  ([applyPlugins] is forwarded too; a setup function
    that invokes it while the kernel is still resolving is outside this
    model.) *)
Record PluginCtx := {
  ctx_id : string;
  ctx_path : string;
  ctx_appPath : string;
  ctx_plugins : gset string;
  ctx_paths : value;
  ctx_methods : gmap string Method
}.

(** A resolved preset or plugin, [{ id, path, opts, apply }].
    [plugin_apply ctx opts] is the call [apply()(ctx, opts)] as far as
    the registries are concerned; the [{ presets, plugins }] object a
    preset returns from it is carried in [plugin_presets] and
    [plugin_plugins], already taken through [convertPluginsToObject]
    and [resolvePresetsOrPlugins] (which are not in the kernel file),
    and [None] stands for a field that is not an array.  A setup
    function whose declarations change with the context it is given,
    and a nested declaration that fails to resolve, are outside this
    model. *)
Inductive IPlugin := mkIPlugin {
  plugin_id : string;
  plugin_path : string;
  plugin_opts : value;
  plugin_apply : PluginCtx -> value -> Registry -> Registry * outcome unit;
  plugin_presets : option (list IPlugin);
  plugin_plugins : option (list IPlugin)
}.

(** The [Config] object, as far as the kernel reads it. *)
Record Config := {
  config_initialConfig : value;
  configPath : value
}.

(** Fields the constructor leaves unassigned are [∅], [[]], [None] or
    [VUndefined] until [init] assigns them; [plugins] and
    [extraPlugins] are among them, and a method that reads them before
    [init] has assigned them, which throws a TypeError, is outside this
    model. *)
Record Kernel := {
  appPath : string;
  isWatch : bool;
  isProduction : bool;
  optsPresets : value;
  optsPlugins : value;
  plugins : gmap string IPlugin;
  paths : value;
  extraPlugins : list IPlugin;
  config : option Config;
  initialConfig : value;
  registry : Registry
}.

Definition set_plugins (m : gmap string IPlugin) (k : Kernel) : Kernel :=
  {| appPath := appPath k; isWatch := isWatch k; isProduction := isProduction k;
     optsPresets := optsPresets k; optsPlugins := optsPlugins k;
     plugins := m; paths := paths k; extraPlugins := extraPlugins k;
     config := config k; initialConfig := initialConfig k; registry := registry k |}.

Definition set_paths (v : value) (k : Kernel) : Kernel :=
  {| appPath := appPath k; isWatch := isWatch k; isProduction := isProduction k;
     optsPresets := optsPresets k; optsPlugins := optsPlugins k;
     plugins := plugins k; paths := v; extraPlugins := extraPlugins k;
     config := config k; initialConfig := initialConfig k; registry := registry k |}.

Definition set_extraPlugins (l : list IPlugin) (k : Kernel) : Kernel :=
  {| appPath := appPath k; isWatch := isWatch k; isProduction := isProduction k;
     optsPresets := optsPresets k; optsPlugins := optsPlugins k;
     plugins := plugins k; paths := paths k; extraPlugins := l;
     config := config k; initialConfig := initialConfig k; registry := registry k |}.

Definition set_config (c : Config) (k : Kernel) : Kernel :=
  {| appPath := appPath k; isWatch := isWatch k; isProduction := isProduction k;
     optsPresets := optsPresets k; optsPlugins := optsPlugins k;
     plugins := plugins k; paths := paths k; extraPlugins := extraPlugins k;
     config := Some c; initialConfig := initialConfig k; registry := registry k |}.

Definition set_initialConfig (v : value) (k : Kernel) : Kernel :=
  {| appPath := appPath k; isWatch := isWatch k; isProduction := isProduction k;
     optsPresets := optsPresets k; optsPlugins := optsPlugins k;
     plugins := plugins k; paths := paths k; extraPlugins := extraPlugins k;
     config := config k; initialConfig := v; registry := registry k |}.

Definition set_registry (r : Registry) (k : Kernel) : Kernel :=
  {| appPath := appPath k; isWatch := isWatch k; isProduction := isProduction k;
     optsPresets := optsPresets k; optsPlugins := optsPlugins k;
     plugins := plugins k; paths := paths k; extraPlugins := extraPlugins k;
     config := config k; initialConfig := initialConfig k; registry := r |}.

(** The log of plugin code entered: a preset's or plugin's setup
    function, or a hook handler with the arguments it was given. *)
Inductive Event :=
| EvSetup (type : PluginType) (p : IPlugin)
| EvHook (name : string) (hook : IHook) (arg opts : value).

Record World := {
  kernel : Kernel;
  store : heap;
  trace : list Event
}.

(** ** The monad of kernel methods: state, and [throw] *)

Definition M (A : Type) := World -> outcome A * World.

Definition ret {A} (a : A) : M A := λ w, (Ok a, w).
Definition throw {A} (e : error) : M A := λ w, (Throw e, w).
Definition bind {A B} (c : M A) (f : A -> M B) : M B :=
  λ w, match c w with
       | (Ok a, w') => f a w'
       | (Throw e, w') => (Throw e, w')
       end.
Definition lift {A} (o : outcome A) : M A := λ w, (o, w).

Notation "'let!' x ':=' c 'in' f" := (bind c (λ x, f))
  (at level 10, x name, c at level 200, f at level 200, only parsing).
Notation "'let!' ' pat ':=' c 'in' f" := (bind c (λ x, match x with pat => f end))
  (at level 10, pat pattern, c at level 200, f at level 200, only parsing).
Notation "'do!' c 'in' f" := (bind c (λ _, f))
  (at level 10, c at level 200, f at level 200, only parsing).

Definition this : M Kernel := λ w, (Ok (kernel w), w).
Definition update (f : Kernel -> Kernel) : M unit :=
  λ w, (Ok tt, {| kernel := f (kernel w); store := store w; trace := trace w |}).
Definition log (e : Event) : M unit :=
  λ w, (Ok tt, {| kernel := kernel w; store := store w; trace := trace w ++ [e] |}).

(** [const a = []] for an array that will be shared and pushed to. *)
Definition new_array : M loc :=
  λ w, (Ok (length (store w)),
        {| kernel := kernel w; store := store w ++ [[]]; trace := trace w |}).
(** [a.push(x)] *)
Definition push (l : loc) (x : value) : M unit :=
  λ w, (Ok tt, {| kernel := kernel w; store := alter (λ xs, xs ++ [x]) l (store w);
                  trace := trace w |}).
(** [await hook.fn(arg, opts)] *)
Definition call (f : handler) (arg opts : value) : M value :=
  λ w, (f arg opts (store w), w).

(** ** applyPlugins *)

(** [AsyncSeriesWaterfallHook.promise]: the taps run one after the
    other, each on the value handed on by the previous one; a tap that
    resolves to [undefined] leaves the value as it was. *)
Fixpoint waterfall_promise (taps : list (Tap (value -> M value))) (arg : value) : M value :=
  match taps with
  | [] => ret arg
  | t :: rest =>
      let! r := tap_fn t arg in
      waterfall_promise rest (match r with VUndefined => arg | _ => r end)
  end.

(** The tap made of one hook in the [for] loop of [applyPlugins]. *)
Definition hook_tap (name : string) (opts : value) (resArr : loc) (hook : IHook)
  : Tap (value -> M value) :=
  {| tap_name := hook_plugin hook;
     tap_stage := default 0 (hook_stage hook);
     tap_before := hook_before hook;
     tap_fn := λ arg,
       do! log (EvHook name hook arg opts) in
       let! res := call (hook_fn hook) arg opts in
       do! push resArr res in
       ret (VRef resArr) |}.

Fixpoint tap_each {F} (items : list (Tap F)) (taps : list (Tap F)) : outcome (list (Tap F)) :=
  match items with
  | [] => Ok taps
  | item :: rest =>
      match tapPromise item taps with
      | Ok taps' => tap_each rest taps'
      | Throw e => Throw e
      end
  end.

Definition applyPlugins (args : value) : M value :=
  let! '(name, initialVal, opts) :=
     (if is_string args then ret (args, VUndefined, VUndefined)
      else
        let! name := lift (get_prop args "name") in
        let! initialVal := lift (get_prop args "initialVal") in
        let! opts := lift (get_prop args "opts") in
        ret (name, initialVal, opts)) in
  match name with
  | VStr name =>
      let! k := this in
      let hooks := default [] (hooks (registry k) !! name) in
      match hooks with
      | [] => waterfall_promise [] initialVal
      | _ =>
          let! resArr := new_array in
          let! taps := lift (tap_each (map (hook_tap name opts resArr) hooks) []) in
          waterfall_promise taps initialVal
      end
  | _ => throw EInvalidName
  end.

(** ** Collaborators outside the kernel file *)

(** The [Config] class, the helpers of [./utils], the babel register
    and Node's [path] and [process] are used by the kernel but are not
    part of it; the kernel is verified for whatever they compute.
    [mergePlugins a b type] stands for [mergePlugins(a, b)(type)]. *)
Class Externals := {
  cwd : string;
  newConfig : string -> bool -> bool -> outcome Config;
  getConfigWithNamed : Config -> value -> string -> outcome value;
  path_join : string -> string -> string;
  mergePlugins : value -> value -> PluginType -> outcome value;
  resolvePresetsOrPlugins : value -> PluginType -> outcome (list IPlugin);
  createBabelRegister : value -> value -> value -> string -> outcome unit
}.

(** Modelled from the spec: [Plugin.registerMethod] is not in the kernel
    file.  It "grafts a new named method onto the kernel, which becomes
    visible on the context of every plugin/preset initialized after
    it"; called with a name only, as [initPluginCtx] does for the
    reserved names, it pre-declares the method of that name. *)
Definition registerMethod (id name : string) (r : Registry) : Registry :=
  {| hooks := hooks r;
     methods := <[name := {| method_owner := id; method_name := name |}]> (methods r);
     commands := commands r;
     platforms := platforms r |}.

(** [m.has(key)] on a map whose keys are strings. *)
Definition map_has {A} (m : gmap string A) (key : value) : bool :=
  match key with
  | VStr s => bool_decide (is_Some (m !! s))
  | _ => false
  end.

(** [while (queue.length) { f(queue.shift()) }] and [forEach]. *)
Definition for_each {A} (f : A -> M unit) : list A -> M unit :=
  fix go (queue : list A) : M unit :=
    match queue with
    | [] => ret tt
    | x :: rest => do! f x in go rest
    end.

Record IKernelOptions := {
  options_appPath : string;
  options_isWatch : bool;
  options_isProduction : bool;
  options_presets : value;
  options_plugins : value
}.

Section Kernel.
Context `{Externals}.

Definition constructor (options : IKernelOptions) : Kernel :=
  {| appPath := if String.eqb (options_appPath options) EmptyString then cwd
                else options_appPath options;
     isProduction := options_isProduction options;
     isWatch := options_isWatch options;
     optsPresets := options_presets options;
     optsPlugins := options_plugins options;
     plugins := ∅; paths := VUndefined; extraPlugins := [];
     config := None; initialConfig := VUndefined;
     registry := {| hooks := ∅; methods := ∅; commands := ∅; platforms := ∅ |} |}.

Definition initPluginCtx (id path : string) : M PluginCtx :=
  do! for_each (λ name,
        let! k := this in
        if bool_decide (is_Some (methods (registry k) !! name)) then ret tt
        else update (λ k, set_registry (registerMethod id name (registry k)) k))
      ["onReady"; "onStart"] in
  let! k := this in
  ret {| ctx_id := id; ctx_path := path;
         ctx_appPath := appPath k;
         ctx_plugins := dom (plugins k);
         ctx_paths := paths k;
         ctx_methods := methods (registry k) |}.

Definition registerPlugin (plugin : IPlugin) : M unit :=
  let! k := this in
  if bool_decide (is_Some (plugins k !! plugin_id plugin)) then
    throw (EPluginRegistered (plugin_id plugin))
  else update (λ k, set_plugins (<[plugin_id plugin := plugin]> (plugins k)) k).

(** [apply()(pluginCtx, opts)]: the setup function is entered, and what
    it did to the registries stays done also when it throws. *)
Definition call_apply (type : PluginType) (p : IPlugin) (pluginCtx : PluginCtx) : M unit :=
  λ w,
    let '(r, o) := plugin_apply p pluginCtx (plugin_opts p) (registry (kernel w)) in
    (o, {| kernel := set_registry r (kernel w);
           store := store w;
           trace := trace w ++ [EvSetup type p] |}).

Fixpoint initPreset (preset : IPlugin) : M unit :=
  match preset with
  | mkIPlugin id path opts apply presets plugins =>
      let! pluginCtx := initPluginCtx id path in
      do! call_apply Preset preset pluginCtx in
      do! registerPlugin preset in
      do! match presets with
          | Some _presets => for_each initPreset _presets
          | None => ret tt
          end in
      match plugins with
      | Some _plugins => update (λ k, set_extraPlugins (extraPlugins k ++ _plugins) k)
      | None => ret tt
      end
  end.

Definition initPlugin (plugin : IPlugin) : M unit :=
  let! pluginCtx := initPluginCtx (plugin_id plugin) (plugin_path plugin) in
  do! registerPlugin plugin in
  call_apply Plugin plugin pluginCtx.

Definition resolvePresets (presets : value) : M unit :=
  let! allPresets := lift (resolvePresetsOrPlugins presets Preset) in
  for_each initPreset allPresets.

Definition resolvePlugins (plugins : value) : M unit :=
  let! allPlugins := lift (resolvePresetsOrPlugins plugins Plugin) in
  let! k := this in
  let _plugins := extraPlugins k ++ allPlugins in
  do! for_each initPlugin _plugins in
  update (set_extraPlugins []).

Definition initPresetsAndPlugins : M unit :=
  let! k := this in
  let initialConfig := initialConfig k in
  let! configPresets := lift (get_prop initialConfig "presets") in
  let! allConfigPresets :=
    lift (mergePlugins (js_or (optsPresets k) (VArr [])) (js_or configPresets (VArr [])) Preset) in
  let! configPlugins := lift (get_prop initialConfig "plugins") in
  let! allConfigPlugins :=
    lift (mergePlugins (js_or (optsPlugins k) (VArr [])) (js_or configPlugins (VArr [])) Plugin) in
  let! babel := lift (get_prop initialConfig "babel") in
  do! lift (createBabelRegister allConfigPresets allConfigPlugins babel (appPath k)) in
  do! update (set_plugins ∅) in
  do! update (set_extraPlugins []) in
  do! resolvePresets allConfigPresets in
  resolvePlugins allConfigPlugins.

Definition initConfig : M unit :=
  let! k := this in
  let! c := lift (newConfig (appPath k) (isWatch k) (isProduction k)) in
  do! update (set_config c) in
  let! v := applyPlugins (VObj [("name", VStr "modifyConfig");
                                ("initialVal", config_initialConfig c)]) in
  update (set_initialConfig v).

(** [path.join(a, b)] throws a TypeError unless [b] is a string. *)
Definition join (a : string) (b : value) : outcome value :=
  match b with
  | VStr s => Ok (VStr (path_join a s))
  | _ => Throw (ETypeError "path")
  end.

Definition initPaths : M unit :=
  let! k := this in
  let! c := match config k with
            | Some c => ret c
            | None => throw (ETypeError "configPath")
            end in
  let! sourceRoot := lift (get_prop (initialConfig k) "sourceRoot") in
  let! sourcePath := lift (join (appPath k) sourceRoot) in
  let! outputRoot := lift (get_prop (initialConfig k) "outputRoot") in
  let! outputPath := lift (join (appPath k) outputRoot) in
  let! v := applyPlugins (VObj [("name", VStr "modifyPaths");
                                ("initialVal", VObj [("appPath", VStr (appPath k));
                                                     ("configPath", configPath c);
                                                     ("sourcePath", sourcePath);
                                                     ("outputPath", outputPath)])]) in
  update (set_paths v).

Definition init : M unit :=
  do! initConfig in
  do! initPaths in
  do! initPresetsAndPlugins in
  do! applyPlugins (VStr "onReady") in
  ret tt.

Definition runWithPlatform (platform : value) : M value :=
  let! k := this in
  if negb (map_has (platforms (registry k)) platform) then throw (ENoPlatform platform)
  else
    match platform, config k with
    | VStr p, Some c =>
        match platforms (registry k) !! p with
        | Some entry => lift (getConfigWithNamed c platform (useConfigName entry))
        | None => throw (ETypeError "useConfigName")
        end
    | _, _ => throw (ETypeError "getConfigWithNamed")
    end.

Definition run (args : value) : M unit :=
  let! '(name, opts) :=
     (if is_string args then ret (args, VUndefined)
      else
        let! name := lift (get_prop args "name") in
        let! opts := lift (get_prop args "opts") in
        ret (name, opts)) in
  do! init in
  do! applyPlugins (VStr "onStart") in
  let! k := this in
  if negb (map_has (commands (registry k)) name) then throw (ENoCommand name)
  else
    let! platform := lift (get_prop opts "platform") in
    let! opts :=
      (if truthy platform then
         let! withNameConfig := runWithPlatform platform in
         lift (set_prop opts "config" withNameConfig)
       else ret opts) in
    do! applyPlugins (VObj [("name", name); ("opts", opts)]) in
    ret tt.

End Kernel.

(** * Notions used to state the properties *)

(** ** The hook runner *)

Definition tap_map {F G} (f : F -> G) (t : Tap F) : Tap G :=
  {| tap_name := tap_name t; tap_stage := tap_stage t;
     tap_before := tap_before t; tap_fn := f (tap_fn t) |}.

(** The tap of a hook, before [applyPlugins] wraps the handler. *)
Definition plain_tap (hook : IHook) : Tap IHook :=
  {| tap_name := hook_plugin hook;
     tap_stage := default 0 (hook_stage hook);
     tap_before := hook_before hook;
     tap_fn := hook |}.

(** The order in which tapable runs the taps that [applyPlugins] makes
    of [hooks], or the error of [tapPromise]. *)
Definition execution_order (hooks : list IHook) : outcome (list IHook) :=
  match tap_each (map plain_tap hooks) [] with
  | Ok taps => Ok (map tap_fn taps)
  | Throw e => Throw e
  end.

(** [hook.stage || 0] *)
Definition stage_of (hook : IHook) : Z := default 0 (hook_stage hook).

(** The hooks of a chain that sit at stage [s], in the order of the chain. *)
Definition at_stage (s : Z) (hooks : list IHook) : list IHook :=
  filter (λ h, stage_of h = s) hooks.

(** The value the [i]-th tap to run is called on. *)
Definition arg_at (initialVal : value) (resArr : loc) (i : nat) : value :=
  match i with O => initialVal | S _ => VRef resArr end.

(** Every handler of [hs], called in turn on [arg_at] while the results
    array holds what the handlers before it returned, returns the
    corresponding element of [rs]. *)
Definition return_in_turn (opts initialVal : value) (st : heap)
    (hs : list IHook) (rs : list value) : Prop :=
  length rs = length hs ∧
  ∀ i h, hs !! i = Some h →
    ∃ r, rs !! i = Some r ∧
         hook_fn h (arg_at initialVal (length st) i) opts (st ++ [take i rs]) = Ok r.

(** What the log shows when the handlers of [hs] have been entered one
    after the other. *)
Definition calls (name : string) (opts initialVal : value) (resArr : loc)
    (hs : list IHook) : list Event :=
  imap (λ i h, EvHook name h (arg_at initialVal resArr i) opts) hs.

(** The hooks whose handlers a piece of log shows entered. *)
Definition hooks_of (evs : list Event) : list IHook :=
  omap (λ e, match e with EvHook _ h _ _ => Some h | EvSetup _ _ => None end) evs.

(** The first lines of [applyPlugins]: the name, the initial value and
    the options that [args] carries. *)
Definition chain_args (args : value) : outcome (value * value * value) :=
  if is_string args then Ok (args, VUndefined, VUndefined)
  else
    match get_prop args "name" with
    | Ok name =>
        match get_prop args "initialVal" with
        | Ok initialVal =>
            match get_prop args "opts" with
            | Ok opts => Ok (name, initialVal, opts)
            | Throw e => Throw e
            end
        | Throw e => Throw e
        end
    | Throw e => Throw e
    end.

(** The hooks registered under [name], as [applyPlugins] reads them. *)
Definition chain_of (w : World) (name : string) : list IHook :=
  default [] (hooks (registry (kernel w)) !! name).

(** The world once the handlers of [hs] have been entered one after the
    other and the values [rs] pushed onto the results array. *)
Definition entered (w : World) (name : string) (opts initialVal : value)
    (hs : list IHook) (rs : list value) : World :=
  {| kernel := kernel w;
     store := store w ++ [rs];
     trace := trace w ++ calls name opts initialVal (length (store w)) hs |}.

(** The world once [applyPlugins] has created its results array. *)
Definition allocated (w : World) : World :=
  {| kernel := kernel w; store := store w ++ [[]]; trace := trace w |}.


(** ** Resolution *)

(** The presets that a preset's turn initialises, in order: itself, then
    the presets it declares, each followed by its own, depth first. *)
Fixpoint preset_sequence (p : IPlugin) : list IPlugin :=
  p :: match plugin_presets p with
       | Some nested => flat_map preset_sequence nested
       | None => []
       end.

(** The plugins that a preset's turn puts on the side queue, in order:
    those of the presets it declares, then its own. *)
Fixpoint extra_sequence (p : IPlugin) : list IPlugin :=
  match plugin_presets p with
  | Some nested => flat_map extra_sequence nested
  | None => []
  end ++ default [] (plugin_plugins p).

(** [this.plugins.set(plugin.id, plugin)], one item after the other. *)
Definition register_all (m : gmap string IPlugin) (items : list IPlugin)
  : gmap string IPlugin :=
  foldl (λ m p, <[plugin_id p := p]> m) m items.

(** The kernel [k] with its plugins map, side queue and registries
    replaced, and every other field as it is. *)
Definition evolved (k : Kernel) (m : gmap string IPlugin) (q : list IPlugin)
    (r : Registry) : Kernel :=
  set_registry r (set_extraPlugins q (set_plugins m k)).

(** The setup functions a piece of log shows entered. *)
Definition setups_of (evs : list Event) : list (PluginType * IPlugin) :=
  omap (λ e, match e with EvSetup t p => Some (t, p) | EvHook _ _ _ _ => None end) evs.

(** The ids of [items] differ from one another and from the keys of [m]. *)
Definition fresh_ids (m : gmap string IPlugin) (items : list IPlugin) : Prop :=
  NoDup (map plugin_id items) ∧ ∀ p, p ∈ items → m !! plugin_id p = None.

(** [f], run on [p] (an item, or a queue of items), when it returns has
    entered the setup functions of [seq p] and registered these items in
    this order, none of them registered before; it has put [ext p] on
    the side queue, and has otherwise only touched the registries. *)
Definition initialises {A} (f : A -> M unit) (type : PluginType)
    (seq ext : A -> list IPlugin) (p : A) : Prop :=
  ∀ w w', f p w = (Ok tt, w') →
    fresh_ids (plugins (kernel w)) (seq p) ∧
    ∃ r, w' = {| kernel := evolved (kernel w)
                             (register_all (plugins (kernel w)) (seq p))
                             (extraPlugins (kernel w) ++ ext p) r;
                 store := store w;
                 trace := trace w ++ map (EvSetup type) (seq p) |}.





(** The items declared to the kernel: the caller's declarations merged
    with those of the initial configuration, then resolved, as
    [initPresetsAndPlugins] and the two [resolve] methods do. *)
Definition declared `{Externals} (type : PluginType) (fromOpts initialConfig : value)
  : outcome (list IPlugin) :=
  match get_prop initialConfig (match type with Preset => "presets" | Plugin => "plugins" end) with
  | Ok fromConfig =>
      match mergePlugins (js_or fromOpts (VArr [])) (js_or fromConfig (VArr [])) type with
      | Ok all => resolvePresetsOrPlugins all type
      | Throw e => Throw e
      end
  | Throw e => Throw e
  end.

(** ** init and run *)

(** The first lines of [run]: the command name and the options that
    [args] carries. *)
Definition run_args (args : value) : outcome (value * value) :=
  if is_string args then Ok (args, VUndefined)
  else
    match get_prop args "name" with
    | Ok name =>
        match get_prop args "opts" with
        | Ok opts => Ok (name, opts)
        | Throw e => Throw e
        end
    | Throw e => Throw e
    end.

(** What [run] does before it looks at the command: [init], then the
    [onStart] chain. *)
Definition started `{Externals} : M unit :=
  do! init in
  do! applyPlugins (VStr "onStart") in
  ret tt.

(** ** Notions for the further properties *)

(** [e] is the entry of a handler of the chain [name], called with the
    options [opts]. *)
Definition entry_of (name : string) (opts : value) (e : Event) : Prop :=
  ∃ h arg, e = EvHook name h arg opts.

(** What [run] hands to [applyPlugins] for the command. *)
Definition dispatch (name opts : value) : M unit :=
  do! applyPlugins (VObj [("name", name); ("opts", opts)]) in
  ret tt.

(** * Plugins and kernels to run the model on *)

(** Modelled from the spec: the hook registration of the plugin context
    ([Plugin.register], reached as [addHook(name, handler, {stage?,
    before?})]) is not in the kernel file.  A hook entry carries its
    owning plugin and is "stored per hook-name as an ordered sequence;
    uniqueness is NOT required". *)
Definition addHook (ctx : PluginCtx) (name : string) (fn : handler)
    (stage : option Z) (before : Before) (r : Registry) : Registry :=
  let hook := {| hook_name := name; hook_plugin := ctx_id ctx; hook_stage := stage;
                 hook_before := before; hook_fn := fn |} in
  {| hooks := <[name := default [] (hooks r !! name) ++ [hook]]> (hooks r);
     methods := methods r;
     commands := commands r;
     platforms := platforms r |}.

(** Modelled from the spec: [registerCommand(name, handler)] is not in
    the kernel file.  A command is "registered into dispatch maps keyed
    by name" and is "dispatched through a hook chain". *)
Definition registerCommand (ctx : PluginCtx) (name : string) (fn : handler)
    (r : Registry) : Registry :=
  let r' := addHook ctx name fn None BNone r in
  {| hooks := hooks r';
     methods := methods r';
     commands := <[name := {| command_name := name; command_fn := fn |}]> (commands r');
     platforms := platforms r' |}.

(** A handler that returns [v], and one that throws [v]. *)
Definition returning (v : value) : handler := λ _ _ _, Ok v.
Definition throwing (v : value) : handler := λ _ _ _, Throw (EThrown v).

(** A plugin or preset module whose setup function does [body] to the
    registries and returns. *)
Definition module (id : string) (body : PluginCtx -> Registry -> Registry)
    (presets plugins : option (list IPlugin)) : IPlugin :=
  {| plugin_id := id; plugin_path := id; plugin_opts := VObj [];
     plugin_apply := λ ctx _ r, (body ctx r, Ok tt);
     plugin_presets := presets; plugin_plugins := plugins |}.

Definition example_config : value :=
  VObj [("sourceRoot", VStr "src"); ("outputRoot", VStr "dist")].

(** Collaborators that load [example_config] and resolve the declared
    presets and plugins to the given items. *)
Definition example_externals (presets plugins : list IPlugin) : Externals :=
  {| cwd := "/cwd";
     newConfig := λ _ _ _, Ok {| config_initialConfig := example_config;
                                 configPath := VStr "/app/config/index.js" |};
     getConfigWithNamed := λ _ platform _, Ok (VObj [("platform", platform)]);
     path_join := λ a b, String.append a (String.append "/" b);
     mergePlugins := λ _ _ type,
       Ok (VStr match type with Preset => "presets" | Plugin => "plugins" end);
     resolvePresetsOrPlugins := λ _ type,
       Ok match type with Preset => presets | Plugin => plugins end;
     createBabelRegister := λ _ _ _ _, Ok tt |}.

(** A freshly constructed kernel, nothing allocated, nothing logged. *)
Definition fresh_world `{Externals} : World :=
  {| kernel := constructor {| options_appPath := "/app"; options_isWatch := false;
                              options_isProduction := false;
                              options_presets := VUndefined;
                              options_plugins := VUndefined |};
     store := []; trace := [] |}.

Definition ids_of (setups : list (PluginType * IPlugin)) : list (PluginType * string) :=
  map (λ s, (s.1, plugin_id s.2)) setups.

(** A preset that taps the [build] hook, a preset that declares it, and
    a plugin that taps the [build] hook. *)
Definition preset_q : IPlugin :=
  module "/presets/q.js" (λ ctx, addHook ctx "build" (returning (VStr "q")) None BNone)
    None None.
Definition preset_p : IPlugin :=
  module "/presets/p.js" (λ _ r, r) (Some [preset_q]) None.
Definition plugin_a : IPlugin :=
  module "/plugins/a.js" (λ ctx, addHook ctx "build" (returning (VStr "a")) None BNone)
    None None.
Definition plugin_b : IPlugin :=
  module "/plugins/b.js" (λ _ r, r) None None.

(** A plugin that registers the [build] command. *)
Definition plugin_build : IPlugin :=
  module "/plugins/build.js" (λ ctx, registerCommand ctx "build" (returning VUndefined))
    None None.

(** A preset declaring a nested preset and a nested plugin. *)
Definition plugin_r : IPlugin := module "/plugins/r.js" (λ _ r, r) None None.
Definition preset_nesting : IPlugin :=
  module "/presets/nesting.js" (λ _ r, r) (Some [preset_q]) (Some [plugin_r]).
Definition preset_sibling : IPlugin := module "/presets/sibling.js" (λ _ r, r) None None.

(** Three handlers on one chain, and a world holding them. *)
Definition hook_h1 : IHook :=
  {| hook_name := "chain"; hook_plugin := "/plugins/one.js"; hook_stage := None;
     hook_before := BNone; hook_fn := returning (VNum 1) |}.
Definition hook_h2 : IHook :=
  {| hook_name := "chain"; hook_plugin := "/plugins/two.js"; hook_stage := Some 1;
     hook_before := BNone; hook_fn := returning (VNum 2) |}.
Definition hook_h3 : IHook :=
  {| hook_name := "chain"; hook_plugin := "/plugins/three.js"; hook_stage := Some 0;
     hook_before := BNone; hook_fn := returning (VNum 3) |}.
Definition hook_boom : IHook :=
  {| hook_name := "chain"; hook_plugin := "/plugins/boom.js"; hook_stage := None;
     hook_before := BNone; hook_fn := throwing (VStr "boom") |}.

Definition world_with (chain : list IHook) (st : heap) : World :=
  {| kernel := {| appPath := "/app"; isWatch := false; isProduction := false;
                  optsPresets := VUndefined; optsPlugins := VUndefined;
                  plugins := ∅; paths := VUndefined; extraPlugins := [];
                  config := None; initialConfig := VUndefined;
                  registry := {| hooks := {[ "chain" := chain ]}; methods := ∅;
                                 commands := ∅; platforms := ∅ |} |};
     store := st; trace := [] |}.

(** Kernels whose declarations resolve to the items above. *)
Definition externals_duplicate_preset : Externals :=
  example_externals [preset_p; preset_q] [].
Definition externals_duplicate_plugin : Externals :=
  example_externals [] [plugin_a; plugin_a].
Definition externals_one_plugin : Externals :=
  example_externals [] [plugin_a].
Definition externals_build : Externals :=
  example_externals [] [plugin_build].
Definition externals_nesting : Externals :=
  example_externals [preset_nesting; preset_sibling] [plugin_b].

(** [run('build', { platform: 'unregistered-platform' })] *)
Definition build_for_unregistered_platform : value :=
  VObj [("name", VStr "build");
        ("opts", VObj [("platform", VStr "unregistered-platform")])].

(** * Readings of the specification that the kernel does not meet *)

(** The elements of a collection value; no value at all counts as the
    empty collection. *)
Definition contents (st : heap) (v : value) : option (list value) :=
  match v with
  | VUndefined => Some []
  | VArr xs => Some xs
  | VRef l => st !! l
  | _ => None
  end.

(** "The runner maintains a running results accumulator (initialized to
    [initialValue], or an empty collection when no initial value is
    supplied) ... its return value is appended to the accumulator ...
    the chain's final resolved value is the accumulator": the resolved
    value holds the initial elements followed by one result per
    handler. *)
Definition accumulator_seeded_with_initialVal : Prop :=
  ∀ w args name initialVal opts seed v w',
    chain_args args = Ok (VStr name, initialVal, opts) →
    chain_of w name ≠ [] →
    contents (store w) initialVal = Some seed →
    applyPlugins args w = (Ok v, w') →
    ∃ rs, length rs = length (chain_of w name) ∧
          contents (store w') v = Some (seed ++ rs).


(** [e] is the entry of a handler of the chain [name]. *)
Definition enters (name : string) (e : Event) : Prop :=
  ∃ h arg opts, e = EvHook name h arg opts.

(** "[run(name, options)] fails before any handler of that command's
    hook chain executes": when [run] fails on a platform that is not
    registered, no handler of the chain named like the command has been
    entered. *)
Definition fails_before_command_handlers `{Externals} : Prop :=
  ∀ w args name opts p e w' evs,
    run_args args = Ok (VStr name, opts) →
    get_prop opts "platform" = Ok (VStr p) →
    p ≠ EmptyString →
    platforms (registry (kernel w')) !! p = None →
    run args w = (Throw e, w') →
    trace w' = trace w ++ evs →
    Forall (λ ev, ¬ enters name ev) evs.

(** "For every registered command name, calling [run] with a bare
    string argument ... throws ... before any handler of the command's
    hook chain executes." *)
Definition bare_run_fails_before_command_handlers `{Externals} : Prop :=
  ∀ w name e w' evs,
    map_has (commands (registry (kernel w'))) (VStr name) = true →
    run (VStr name) w = (Throw e, w') →
    trace w' = trace w ++ evs →
    Forall (λ ev, ¬ enters name ev) evs.

(** "[run] only dispatches the command chain when an [opts] object is
    supplied." *)
Definition dispatches_only_with_opts_object `{Externals} : Prop :=
  ∀ w args name opts w',
    run_args args = Ok (name, opts) →
    run args w = (Ok tt, w') →
    ∃ fields, opts = VObj fields.

(** ** More plugins and kernels *)

(** Modelled from the spec: [registerPlatform({name, useConfigName, fn})]
    is not in the kernel file.  A platform entry is "registered into
    dispatch maps keyed by name". *)
Definition registerPlatform (platform : IPlatform) (r : Registry) : Registry :=
  {| hooks := hooks r;
     methods := methods r;
     commands := commands r;
     platforms := <[platform_name platform := platform]> (platforms r) |}.

(** The platform plugin [platforms/h5]: its setup function registers
    the platform [h5], which reads the configuration named [h5]; [build]
    stands for the body of its [fn], the h5 build. *)
Definition platform_h5 (build : handler) : IPlugin :=
  module "/platforms/h5.js"
    (λ _, registerPlatform {| platform_name := "h5"; useConfigName := "h5";
                              platform_fn := build |})
    None None.

(** A module whose setup function throws [v] and does nothing else. *)
Definition module_throwing (id : string) (v : value) : IPlugin :=
  {| plugin_id := id; plugin_path := id; plugin_opts := VObj [];
     plugin_apply := λ _ _ r, (r, Throw (EThrown v));
     plugin_presets := None; plugin_plugins := None |}.

Definition externals_h5 : Externals :=
  example_externals [] [plugin_build; platform_h5 (returning VUndefined)].

(** [run('build', { platform: 'h5' })] *)
Definition build_for_h5 : value :=
  VObj [("name", VStr "build"); ("opts", VObj [("platform", VStr "h5")])].

(** Hooks with a [before] constraint, on a plugin that taps the chain
    and on one that does not. *)
Definition hook_before_one : IHook :=
  {| hook_name := "chain"; hook_plugin := "/plugins/early.js"; hook_stage := Some 5;
     hook_before := BStr "/plugins/one.js"; hook_fn := returning (VNum 4) |}.
Definition hook_before_absent : IHook :=
  {| hook_name := "chain"; hook_plugin := "/plugins/early.js"; hook_stage := Some 9;
     hook_before := BStr "/plugins/absent.js"; hook_fn := returning (VNum 5) |}.

(** A kernel that has loaded [example_config] and holds [chain] under
    the hook name [name]. *)
Definition configured_world (name : string) (chain : list IHook) : World :=
  {| kernel := {| appPath := "/app"; isWatch := false; isProduction := false;
                  optsPresets := VUndefined; optsPlugins := VUndefined;
                  plugins := ∅; paths := VUndefined; extraPlugins := [];
                  config := None; initialConfig := example_config;
                  registry := {| hooks := {[ name := chain ]}; methods := ∅;
                                 commands := ∅; platforms := ∅ |} |};
     store := []; trace := [] |}.

(** A plugin that registers a command named [onStart], and the hook
    that registering it puts on the [onStart] chain. *)
Definition plugin_onStart : IPlugin :=
  module "/plugins/onstart.js" (λ ctx, registerCommand ctx "onStart" (returning VUndefined))
    None None.
Definition hook_onStart : IHook :=
  {| hook_name := "onStart"; hook_plugin := "/plugins/onstart.js"; hook_stage := None;
     hook_before := BNone; hook_fn := returning VUndefined |}.
Definition externals_onStart : Externals :=
  example_externals [] [plugin_onStart].

(** [run('onStart', { platform: 'unregistered-platform' })] *)
Definition onStart_for_unregistered_platform : value :=
  VObj [("name", VStr "onStart");
        ("opts", VObj [("platform", VStr "unregistered-platform")])].

(** [run({ name: 'build', opts: 1 })], and the hook that registering the
    [build] command puts on the [build] chain. *)
Definition build_with_number : value :=
  VObj [("name", VStr "build"); ("opts", VNum 1)].
Definition hook_build : IHook :=
  {| hook_name := "build"; hook_plugin := "/plugins/build.js"; hook_stage := None;
     hook_before := BNone; hook_fn := returning VUndefined |}.

(** A kernel on which a [modifyPaths] handler is registered already,
    and presets and plugins one of which taps [onReady]. *)
Definition hook_paths : IHook :=
  {| hook_name := "modifyPaths"; hook_plugin := "/plugins/paths.js"; hook_stage := None;
     hook_before := BNone; hook_fn := returning (VObj [("appPath", VStr "/elsewhere")]) |}.
Definition hook_ready : IHook :=
  {| hook_name := "onReady"; hook_plugin := "/plugins/ready.js"; hook_stage := None;
     hook_before := BNone; hook_fn := returning VUndefined |}.
Definition plugin_ready : IPlugin :=
  module "/plugins/ready.js" (λ ctx, addHook ctx "onReady" (returning VUndefined) None BNone)
    None None.
Definition externals_ready : Externals :=
  example_externals [preset_nesting; preset_sibling] [plugin_ready].

(** A kernel in the middle of resolution, with [queue] on the side
    queue. *)
Definition world_queued (queue : list IPlugin) : World :=
  {| kernel := {| appPath := "/app"; isWatch := false; isProduction := false;
                  optsPresets := VUndefined; optsPlugins := VUndefined;
                  plugins := ∅; paths := VUndefined; extraPlugins := queue;
                  config := None; initialConfig := example_config;
                  registry := {| hooks := ∅; methods := ∅; commands := ∅; platforms := ∅ |} |};
     store := []; trace := [] |}.

(** * Properties *)

(** ** The hook runner *)

Lemma insert_down_map {F G} (f : F -> G) (item : Tap F) before rtaps :
  insert_down (tap_map f item) before (map (tap_map f) rtaps)
  = map (tap_map f) (insert_down item before rtaps).
Proof.
  revert before. induction rtaps as [|x rest IH]; intros before; simpl; [done|].
  repeat case_match; simpl; rewrite ?IH; done.
Qed.

Lemma _insert_map {F G} (f : F -> G) (item : Tap F) taps :
  _insert (tap_map f item) (map (tap_map f) taps) = map (tap_map f) (_insert item taps).
Proof.
  unfold _insert. simpl. rewrite <- map_rev, insert_down_map, map_rev. done.
Qed.

Lemma tap_each_map {F G} (f : F -> G) (items taps : list (Tap F)) :
  tap_each (map (tap_map f) items) (map (tap_map f) taps)
  = match tap_each items taps with
    | Ok r => Ok (map (tap_map f) r)
    | Throw e => Throw e
    end.
Proof.
  revert taps. induction items as [|item rest IH]; intros taps; simpl; [done|].
  unfold tapPromise. simpl. destruct (String.eqb (tap_name item) EmptyString); [done|].
  rewrite _insert_map. apply IH.
Qed.

(** The wrapped taps come in the execution order of their hooks. *)
Lemma tap_each_hook_tap name opts resArr hooks :
  tap_each (map (hook_tap name opts resArr) hooks) []
  = match execution_order hooks with
    | Ok ord => Ok (map (hook_tap name opts resArr) ord)
    | Throw e => Throw e
    end.
Proof.
  unfold execution_order.
  pose (f := λ hook : IHook, tap_fn (hook_tap name opts resArr hook)).
  assert (Hm : ∀ l, map (hook_tap name opts resArr) l = map (tap_map f) (map plain_tap l)).
  { intros l. rewrite map_map. apply map_ext. done. }
  rewrite Hm. change (@nil (Tap (value -> M value))) with (map (tap_map f) (@nil (Tap IHook))).
  rewrite tap_each_map.
  destruct (tap_each (map plain_tap hooks) []) as [taps|e] eqn:Heach; [|done].
  f_equal. rewrite map_map.
  assert (Hp : ∀ taps' acc, tap_each (map plain_tap hooks) acc = Ok taps' ->
            Forall (λ t, t = plain_tap (tap_fn t)) acc ->
            Forall (λ t, t = plain_tap (tap_fn t)) taps').
  { clear. intros taps' acc; revert taps' acc. induction hooks as [|h hs IH]; simpl; intros taps' acc He Hacc.
    - congruence.
    - unfold tapPromise in He. destruct (String.eqb _ _); [done|].
      eapply IH; [exact He|].
      unfold _insert. apply Forall_rev.
      apply Forall_rev in Hacc. revert Hacc.
      generalize (before_set (tap_before (plain_tap h))) (rev acc).
      intros b l. revert b. induction l as [|x l IHl]; intros b Hl; simpl.
      + by constructor.
      + inversion Hl; subst. repeat case_match; repeat constructor; auto. }
  specialize (Hp taps [] Heach (Forall_nil_2 _)). clear Heach.
  induction Hp as [|t ts Ht _ IH]; simpl; [done|].
  rewrite IH. f_equal. rewrite Ht at 1. done.
Qed.

Lemma arg_at_ref l i : arg_at (VRef l) l i = VRef l.
Proof. by destruct i. Qed.

Lemma calls_cons name opts initialVal l h hs :
  calls name opts initialVal l (h :: hs)
  = EvHook name h initialVal opts :: calls name opts (VRef l) l hs.
Proof.
  unfold calls. rewrite imap_cons. simpl. f_equal.
  apply imap_ext. intros i x _. simpl. by rewrite arg_at_ref.
Qed.

Lemma hooks_of_app (evs1 evs2 : list Event) : hooks_of (evs1 ++ evs2) = hooks_of evs1 ++ hooks_of evs2.
Proof. unfold hooks_of. apply omap_app. Qed.

Lemma push_store (st : heap) (rs : list value) (r : value) :
  alter (λ xs, xs ++ [r]) (length st) (st ++ [rs]) = st ++ [rs ++ [r]].
Proof. rewrite <- (Nat.add_0_r (length st)) at 1. by rewrite alter_app_r. Qed.

(** One tap: the handler is entered, and its result pushed. *)
Lemma hook_tap_step name opts st rs h arg w :
  store w = st ++ [rs] →
  tap_fn (hook_tap name opts (length st) h) arg w
  = match hook_fn h arg opts (st ++ [rs]) with
    | Ok r => (Ok (VRef (length st)),
               {| kernel := kernel w; store := st ++ [rs ++ [r]];
                  trace := trace w ++ [EvHook name h arg opts] |})
    | Throw e => (Throw e,
               {| kernel := kernel w; store := st ++ [rs];
                  trace := trace w ++ [EvHook name h arg opts] |})
    end.
Proof.
  intros Hst. unfold hook_tap, tap_fn, bind, log, call, push, ret. simpl.
  rewrite Hst. destruct (hook_fn h arg opts (st ++ [rs])); simpl; [|done].
  by rewrite push_store.
Qed.

Lemma waterfall_promise_app taps1 taps2 arg w :
  waterfall_promise (taps1 ++ taps2) arg w
  = match waterfall_promise taps1 arg w with
    | (Ok a, w') => waterfall_promise taps2 a w'
    | (Throw e, w') => (Throw e, w')
    end.
Proof.
  revert arg w. induction taps1 as [|t ts IH]; intros arg w; simpl; [done|].
  unfold bind. destruct (tap_fn t arg w) as [[r|e] w1]; [|done]. apply IH.
Qed.

(** A run in which every handler returns. *)
Lemma waterfall_promise_returns name opts st hs : ∀ pre rs arg w,
  store w = st ++ [pre] →
  length rs = length hs →
  (∀ i h, hs !! i = Some h →
     ∃ r, rs !! i = Some r ∧
          hook_fn h (arg_at arg (length st) i) opts (st ++ [pre ++ take i rs]) = Ok r) →
  waterfall_promise (map (hook_tap name opts (length st)) hs) arg w
  = (Ok (match hs with [] => arg | _ => VRef (length st) end),
     {| kernel := kernel w; store := st ++ [pre ++ rs];
        trace := trace w ++ calls name opts arg (length st) hs |}).
Proof.
  induction hs as [|h hs IH]; intros pre rs arg w Hst Hlen Hret.
  - destruct rs; [|done]. simpl. unfold ret, calls. simpl.
    rewrite !app_nil_r, <- Hst. by destruct w.
  - destruct rs as [|r rs]; [done|]. simpl in Hlen.
    cbn [map waterfall_promise]. unfold bind at 1.
    rewrite (hook_tap_step _ _ _ pre) by done.
    destruct (Hret 0%nat h eq_refl) as (r0 & Hr0 & Hcall).
    simpl in Hr0, Hcall. injection Hr0 as <-. rewrite app_nil_r in Hcall.
    rewrite Hcall.
    rewrite (IH (pre ++ [r]) rs (VRef (length st))); simpl; [| done | lia |].
    + rewrite calls_cons. rewrite <- !app_assoc. simpl.
      by destruct hs.
    + intros i h' Hi. destruct (Hret (S i) h' Hi) as (r' & Hr' & Hc').
      exists r'. split; [done|]. rewrite arg_at_ref.
      simpl in Hc'. by rewrite <- app_assoc.
Qed.

(** Conversely, a run that resolves is one in which every handler
    returned. *)
Lemma waterfall_promise_resolved name opts st hs : ∀ pre arg w v w',
  store w = st ++ [pre] →
  waterfall_promise (map (hook_tap name opts (length st)) hs) arg w = (Ok v, w') →
  ∃ rs, length rs = length hs ∧
    (∀ i h, hs !! i = Some h →
       ∃ r, rs !! i = Some r ∧
            hook_fn h (arg_at arg (length st) i) opts (st ++ [pre ++ take i rs]) = Ok r) ∧
    v = match hs with [] => arg | _ => VRef (length st) end ∧
    w' = {| kernel := kernel w; store := st ++ [pre ++ rs];
            trace := trace w ++ calls name opts arg (length st) hs |}.
Proof.
  induction hs as [|h hs IH]; intros pre arg w v w' Hst Hrun.
  - exists []. simpl in Hrun. injection Hrun as <- <-.
    split; [done|]. split; [intros i h Hi; done|]. split; [done|].
    unfold calls. simpl. rewrite !app_nil_r, <- Hst. by destruct w.
  - cbn [map waterfall_promise] in Hrun. unfold bind at 1 in Hrun.
    rewrite (hook_tap_step _ _ _ pre) in Hrun by done.
    destruct (hook_fn h arg opts (st ++ [pre])) as [r|e] eqn:Hcall; [|done].
    apply IH with (pre := pre ++ [r]) in Hrun; [|done].
    destruct Hrun as (rs & Hlen & Hret & Hv & Hw').
    exists (r :: rs). split; [simpl; lia|]. split; [|split].
    + intros [|i] h' Hi; simpl in Hi.
      * injection Hi as <-. exists r. simpl. rewrite app_nil_r. done.
      * destruct (Hret i h' Hi) as (r' & Hr' & Hc'). exists r'. split; [done|].
        rewrite arg_at_ref in Hc'. simpl. by rewrite <- app_assoc in Hc'.
    + rewrite Hv. by destruct hs.
    + rewrite Hw'. simpl. rewrite calls_cons, <- !app_assoc. done.
Qed.

Lemma applyPlugins_unfold args w :
  applyPlugins args w
  = match chain_args args with
    | Ok (VStr name, initialVal, opts) =>
        match chain_of w name with
        | [] => (Ok initialVal, w)
        | hs =>
            match execution_order hs with
            | Ok ord =>
                waterfall_promise (map (hook_tap name opts (length (store w))) ord)
                  initialVal (allocated w)
            | Throw e => (Throw e, allocated w)
            end
        end
    | Ok (_, _, _) => (Throw EInvalidName, w)
    | Throw e => (Throw e, w)
    end.
Proof.
  unfold applyPlugins, chain_args, chain_of.
  destruct (is_string args) eqn:Hs.
  - unfold bind at 1. unfold ret at 1.
    destruct args; try done. unfold bind, this. simpl.
    destruct (default [] (hooks (registry (kernel w)) !! s)) as [|h hs] eqn:Hhs; [done|].
    unfold new_array, lift. rewrite tap_each_hook_tap.
    by destruct (execution_order (h :: hs)).
  - unfold bind at 1. unfold bind at 1. unfold lift at 1.
    destruct (get_prop args "name") as [name|e]; [|done].
    unfold bind at 1. unfold lift at 1.
    destruct (get_prop args "initialVal") as [initialVal|e]; [|done].
    unfold bind at 1. unfold lift at 1.
    destruct (get_prop args "opts") as [opts|e]; [|done].
    unfold ret at 1.
    destruct name; try done. unfold bind, this. simpl.
    destruct (default [] (hooks (registry (kernel w)) !! s)) as [|h hs] eqn:Hhs; [done|].
    unfold new_array, lift. rewrite tap_each_hook_tap.
    by destruct (execution_order (h :: hs)).
Qed.

Lemma execution_order_nil_inv hs : execution_order hs = Ok [] → hs = [].
Proof.
  destruct hs as [|h hs]; [done|]. unfold execution_order. simpl.
  unfold tapPromise. destruct (String.eqb _ _); [done|].
  assert (Hne : ∀ items (acc taps : list (Tap IHook)),
            tap_each items acc = Ok taps → acc ≠ [] → taps ≠ []).
  { clear. induction items as [|x items IH]; simpl; intros acc taps He Hacc.
    - congruence.
    - unfold tapPromise in He. destruct (String.eqb _ _); [done|].
      eapply IH; [exact He|]. unfold _insert.
      intros Hnil. apply (f_equal (@length _)) in Hnil. rewrite length_rev in Hnil.
      destruct (rev acc); simpl in Hnil; repeat case_match; simpl in Hnil; lia. }
  destruct (tap_each _ _) as [taps|e] eqn:He; [|done].
  intros Hm. apply Hne in He.
  - destruct taps; done.
  - unfold _insert. simpl. done.
Qed.

(** C4: a chain without handlers resolves to the initial value it was
    given, and nothing else happens: for every hook name under which no
    handler is registered and every initial value [v],
    [applyPlugins({name, initialVal: v})] resolves to [v] and leaves the
    world untouched. *)
Theorem applyPlugins_no_handlers_identity (w : World) (args : value) (name : string)
    (v opts : value) :
  chain_args args = Ok (VStr name, v, opts) →
  chain_of w name = [] →
  applyPlugins args w = (Ok v, w).
Proof.
  intros Hargs Hnone. rewrite applyPlugins_unfold, Hargs, Hnone. done.
Qed.

(** C3, as amended: with at least one handler, and handlers that do
    not themselves write to the array they are handed, [applyPlugins]
    resolves exactly when every handler, called in execution order,
    returns; the results array is a fresh one that starts empty whatever
    the initial value is; the first handler is called on
    [(initialVal, opts)] and every later one on [(results array, opts)],
    at a time when the array holds the values returned so far; and the
    resolved value is that array, holding the values returned by all
    handlers in execution order. *)
Theorem applyPlugins_collects_results (w : World) (args : value) (name : string)
    (initialVal opts : value) (v : value) (w' : World) :
  chain_args args = Ok (VStr name, initialVal, opts) →
  chain_of w name ≠ [] →
  applyPlugins args w = (Ok v, w') ↔
  ∃ ord rs,
    execution_order (chain_of w name) = Ok ord ∧
    return_in_turn opts initialVal (store w) ord rs ∧
    v = VRef (length (store w)) ∧
    w' = {| kernel := kernel w;
            store := store w ++ [rs];
            trace := trace w ++ calls name opts initialVal (length (store w)) ord |}.
Proof.
  intros Hargs Hsome. rewrite applyPlugins_unfold, Hargs.
  destruct (chain_of w name) as [|h hs] eqn:Hhs; [done|].
  destruct (execution_order (h :: hs)) as [ord|e] eqn:Hord.
  - assert (Hne : ord ≠ []).
    { intros ->. by apply execution_order_nil_inv in Hord. }
    split.
    + intros Hrun.
      apply waterfall_promise_resolved with (pre := []) in Hrun; [|done].
      destruct Hrun as (rs & Hlen & Hret & Hv & Hw').
      exists ord, rs. split; [done|]. split; [by split|].
      split; [by destruct ord|]. done.
    + intros (ord' & rs & Hord' & [Hlen Hret] & -> & ->).
      injection Hord' as <-.
      rewrite (waterfall_promise_returns name opts (store w) ord [] rs); try done.
      by destruct ord.
  - split; [done|]. intros (ord' & rs & Hord' & _). done.
Qed.

(** *** Order of execution without [before] constraints *)

Lemma StronglySorted_rev {A} (R : relation A) (l : list A) :
  StronglySorted R l → StronglySorted (flip R) (rev l).
Proof.
  induction 1 as [|x l Hs IH Hx]; simpl; [constructor|].
  apply StronglySorted_app_2; [|done|repeat constructor].
  intros x1 x2 Hx1 Hx2. apply list_elem_of_singleton in Hx2 as ->.
  apply list_elem_of_In, in_rev, list_elem_of_In in Hx1.
  rewrite Forall_forall in Hx. by apply Hx.
Qed.

(** Walking down from the last tap, an unconstrained hook passes the
    taps of a higher stage and settles behind the first one whose stage
    is not higher. *)
Lemma insert_down_plain h (r : list IHook) :
  StronglySorted (flip (λ a b, stage_of a ≤ stage_of b)) r →
  ∃ r1 r2, r = r1 ++ r2 ∧
    insert_down (plain_tap h) [] (map plain_tap r) = map plain_tap (r1 ++ h :: r2) ∧
    Forall (λ x, stage_of h < stage_of x) r1 ∧
    Forall (λ x, stage_of x ≤ stage_of h) r2.
Proof.
  induction 1 as [|x r Hs IH Hx]; simpl.
  - by exists [], [].
  - fold (stage_of h) (stage_of x).
    destruct (Z.ltb_spec (stage_of h) (stage_of x)) as [Hlt|Hge].
    + destruct IH as (r1 & r2 & -> & -> & H1 & H2).
      exists (x :: r1), r2. repeat split; try done. by constructor.
    + exists [], (x :: r). repeat split; try done. constructor; [done|].
      eapply Forall_impl; [exact Hx|]. unfold flip. simpl. intros y Hy. lia.
Qed.

Lemma _insert_plain h (l : list IHook) :
  hook_before h = BNone →
  StronglySorted (λ a b, stage_of a ≤ stage_of b) l →
  ∃ l1 l2, l = l1 ++ l2 ∧
    _insert (plain_tap h) (map plain_tap l) = map plain_tap (l1 ++ h :: l2) ∧
    Forall (λ x, stage_of x ≤ stage_of h) l1 ∧
    Forall (λ x, stage_of h < stage_of x) l2.
Proof.
  intros Hb Hs. unfold _insert. simpl. rewrite Hb. simpl.
  rewrite <- map_rev.
  destruct (insert_down_plain h (rev l)) as (r1 & r2 & Hr & -> & H1 & H2).
  { by apply StronglySorted_rev. }
  exists (rev r2), (rev r1).
  assert (Hl : l = rev r2 ++ rev r1).
  { rewrite <- rev_app_distr, <- Hr. by rewrite rev_involutive. }
  split; [done|]. split; [|split; by apply Forall_rev].
  rewrite <- map_rev. f_equal. rewrite rev_app_distr. simpl. by rewrite <- app_assoc.
Qed.

Lemma tap_each_by_stage hooks : ∀ l,
  StronglySorted (λ a b, stage_of a ≤ stage_of b) l →
  Forall (λ h, hook_before h = BNone ∧ hook_plugin h ≠ EmptyString) hooks →
  ∃ ord, tap_each (map plain_tap hooks) (map plain_tap l) = Ok (map plain_tap ord) ∧
    StronglySorted (λ a b, stage_of a ≤ stage_of b) ord ∧
    ∀ s, at_stage s ord = at_stage s (l ++ hooks).
Proof.
  induction hooks as [|h hooks IH]; intros l Hs Hok.
  - exists l. simpl. by rewrite app_nil_r.
  - apply Forall_cons in Hok as [[Hb Hn] Hok]. simpl. unfold tapPromise. simpl.
    apply String.eqb_neq in Hn. rewrite Hn.
    destruct (_insert_plain h l Hb Hs) as (l1 & l2 & -> & -> & H1 & H2).
    apply StronglySorted_app in Hs as (H12 & Hs1 & Hs2).
    destruct (IH (l1 ++ h :: l2)) as (ord & -> & Hsorted & Hstage); [|done|].
    { apply StronglySorted_app_2; [|done|].
      - intros x1 x2 Hx1 [->|Hx2]%elem_of_cons.
        + rewrite Forall_forall in H1. by apply H1.
        + by apply H12.
      - constructor; [done|]. eapply Forall_impl; [exact H2|]. simpl. intros; lia. }
    exists ord. split; [done|]. split; [done|].
    intros s. rewrite Hstage. unfold at_stage.
    rewrite <- !app_assoc, !filter_app. f_equal. simpl.
    rewrite !(filter_cons _ h). destruct (decide (stage_of h = s)) as [<-|Hne]; [|done].
    assert (Hnone : filter (λ x, stage_of x = stage_of h) l2 = []).
    { clear -H2. induction H2 as [|x l2 Hx _ IHl]; [done|].
      rewrite filter_cons_False by lia. done. }
    rewrite Hnone. done.
Qed.

(** X3: hooks without [before] constraints run by ascending stage, and
    within a stage in the order in which they were registered. *)
Lemma execution_order_by_stage hooks :
  Forall (λ h, hook_before h = BNone ∧ hook_plugin h ≠ EmptyString) hooks →
  ∃ ord, execution_order hooks = Ok ord ∧
    StronglySorted (λ a b, stage_of a ≤ stage_of b) ord ∧
    ∀ s, at_stage s ord = at_stage s hooks.
Proof.
  intros Hok. destruct (tap_each_by_stage hooks [] (SSorted_nil _) Hok)
    as (ord & Heach & Hsorted & Hstage).
  exists ord. unfold execution_order. simpl in Heach. rewrite Heach.
  split; [|done]. f_equal. rewrite map_map. simpl. apply map_id.
Qed.

(** C6: when a handler throws, or rejects, the handlers ordered after it
    on the chain are never entered and the caller of [applyPlugins] gets
    that very error: if the handlers [pre] that run before [h1] return
    in turn and [h1] then throws [e], the call throws [e] and the log
    shows the handlers of [pre] and [h1] entered, and none of [post]. *)
Theorem applyPlugins_handler_throw_aborts (w : World) (args : value) (name : string)
    (initialVal opts : value) (pre post : list IHook) (h1 : IHook)
    (rs : list value) (e : error) :
  chain_args args = Ok (VStr name, initialVal, opts) →
  execution_order (chain_of w name) = Ok (pre ++ h1 :: post) →
  return_in_turn opts initialVal (store w) pre rs →
  hook_fn h1 (arg_at initialVal (length (store w)) (length pre)) opts (store w ++ [rs])
    = Throw e →
  applyPlugins args w
  = (Throw e,
     {| kernel := kernel w;
        store := store w ++ [rs];
        trace := trace w ++ calls name opts initialVal (length (store w)) (pre ++ [h1]) |}).
Proof.
  intros Hargs Hord [Hlen Hret] Hthrow.
  rewrite applyPlugins_unfold, Hargs.
  destruct (chain_of w name) as [|h hs] eqn:Hhs.
  { unfold execution_order in Hord. simpl in Hord. by destruct pre. }
  rewrite Hord, map_app, waterfall_promise_app.
  rewrite (waterfall_promise_returns name opts (store w) pre [] rs); try done.
  cbn [map waterfall_promise]. unfold bind.
  rewrite (hook_tap_step name opts (store w) rs); [|done].
  assert (Harg : match pre with [] => initialVal | _ => VRef (length (store w)) end
                 = arg_at initialVal (length (store w)) (length pre)) by by destruct pre.
  rewrite Harg, Hthrow. simpl. f_equal. f_equal.
  rewrite <- app_assoc. f_equal.
  unfold calls. rewrite imap_app. simpl. by rewrite Nat.add_0_r.
Qed.

(** C5: of three handlers [h1] (stage 0), [h2] (stage 1) and [h3]
    (stage 0), none with a [before] constraint and [h3] registered after
    [h1], the handlers run in the order [h1], [h3], [h2]: ascending
    stage, then registration order.  [applyPlugins] enters [h1] first,
    on the initial value; if [h1] returns it enters [h3], on the results
    array that now holds the value [h1] returned; if [h3] returns it
    enters [h2]; and it resolves to the results array when [h2] returns.
    The first of them that throws ends the call with its error. *)
Theorem applyPlugins_stage_then_registration_order (w : World) (args : value)
    (name : string) (initialVal opts : value) (h1 h2 h3 : IHook) :
  chain_args args = Ok (VStr name, initialVal, opts) →
  chain_of w name = [h1; h2; h3] ∨ chain_of w name = [h1; h3; h2]
    ∨ chain_of w name = [h2; h1; h3] →
  stage_of h1 = 0 → stage_of h2 = 1 → stage_of h3 = 0 →
  hook_before h1 = BNone → hook_before h2 = BNone → hook_before h3 = BNone →
  hook_plugin h1 ≠ EmptyString → hook_plugin h2 ≠ EmptyString → hook_plugin h3 ≠ EmptyString →
  execution_order (chain_of w name) = Ok [h1; h3; h2] ∧
  applyPlugins args w
  = match hook_fn h1 initialVal opts (store w ++ [[]]) with
    | Throw e => (Throw e, entered w name opts initialVal [h1] [])
    | Ok r1 =>
        match hook_fn h3 (VRef (length (store w))) opts (store w ++ [[r1]]) with
        | Throw e => (Throw e, entered w name opts initialVal [h1; h3] [r1])
        | Ok r3 =>
            match hook_fn h2 (VRef (length (store w))) opts (store w ++ [[r1; r3]]) with
            | Throw e => (Throw e, entered w name opts initialVal [h1; h3; h2] [r1; r3])
            | Ok r2 => (Ok (VRef (length (store w))),
                        entered w name opts initialVal [h1; h3; h2] [r1; r3; r2])
            end
        end
    end.
Proof.
  intros Hargs Hchain Hs1 Hs2 Hs3 Hb1 Hb2 Hb3 Hn1 Hn2 Hn3. unfold stage_of in *.
  assert (Hord : execution_order (chain_of w name) = Ok [h1; h3; h2]).
  { apply String.eqb_neq in Hn1, Hn2, Hn3.
    destruct Hchain as [-> | [-> | ->]];
      unfold execution_order, tap_each, tapPromise, _insert; simpl;
      rewrite ?Hn1, ?Hn2, ?Hn3, ?Hb1, ?Hb2, ?Hb3; simpl;
      repeat (first [rewrite Hs1 | rewrite Hs2 | rewrite Hs3]; simpl); done. }
  split; [done|].
  rewrite applyPlugins_unfold, Hargs.
  destruct (chain_of w name) as [|h hs] eqn:Hhs.
  { destruct Hchain as [? | [? | ?]]; done. }
  rewrite Hord. cbn [map waterfall_promise]. unfold entered, calls, bind, ret.
  rewrite (hook_tap_step name opts (store w) []) by done.
  destruct (hook_fn h1 initialVal opts (store w ++ [[]])) as [r1|e]; [|done].
  rewrite (hook_tap_step name opts (store w) [r1]) by done.
  destruct (hook_fn h3 (VRef (length (store w))) opts (store w ++ [[r1]])) as [r3|e].
  2:{ cbn. by rewrite <- app_assoc. }
  rewrite (hook_tap_step name opts (store w) [r1; r3]) by done.
  destruct (hook_fn h2 (VRef (length (store w))) opts (store w ++ [[r1; r3]])) as [r2|e];
    cbn; by rewrite <- !app_assoc.
Qed.

(** ** Resolution *)

Lemma IPlugin_nested_ind (P : IPlugin -> Prop) :
  (∀ id path opts apply presets plugins,
     match presets with Some nested => Forall P nested | None => True end →
     P (mkIPlugin id path opts apply presets plugins)) →
  ∀ p, P p.
Proof.
  intros Hstep. fix IH 1. intros [id path opts apply presets plugins].
  apply Hstep. destruct presets as [nested|]; [|exact I].
  induction nested as [|q nested IHn]; constructor; [apply IH | exact IHn].
Qed.

Lemma evolved_id k : evolved k (plugins k) (extraPlugins k) (registry k) = k.
Proof. by destruct k. Qed.

Lemma evolved_evolved k m q r m' q' r' :
  evolved (evolved k m q r) m' q' r' = evolved k m' q' r'.
Proof. done. Qed.

Lemma register_all_app m l1 l2 :
  register_all m (l1 ++ l2) = register_all (register_all m l1) l2.
Proof. unfold register_all. apply foldl_app. Qed.

Lemma register_all_lookup_None m items i :
  register_all m items !! i = None ↔ m !! i = None ∧ i ∉ map plugin_id items.
Proof.
  revert m. induction items as [|p items IH]; intros m; simpl.
  - split; [intros Hm; split; [done|apply not_elem_of_nil] | by intros [? _]].
  - rewrite IH, not_elem_of_cons. destruct (decide (plugin_id p = i)) as [->|Hne].
    + rewrite lookup_insert_eq. split; [by intros [? ?] | by intros (? & ? & ?)].
    + rewrite lookup_insert_ne by done.
      split; [intros [? ?]; repeat split; [done|congruence|done] | by intros (? & ? & ?)].
Qed.

Lemma register_all_lookup_fresh m items p :
  NoDup (map plugin_id items) → p ∈ items →
  register_all m items !! plugin_id p = Some p.
Proof.
  revert m. induction items as [|q items IH]; intros m Hnd Hin; simpl.
  - by apply elem_of_nil in Hin.
  - apply NoDup_cons in Hnd as [Hq Hnd]. apply elem_of_cons in Hin as [->|Hin].
    + clear IH. assert (Hkeep : ∀ m', m' !! plugin_id q = Some q →
                          register_all m' items !! plugin_id q = Some q).
      { clear Hnd. induction items as [|x items IH]; intros m' Hm'; simpl; [done|].
        apply not_elem_of_cons in Hq as [Hx Hq]. apply IH; [done|].
        by rewrite lookup_insert_ne. }
      apply Hkeep. by rewrite lookup_insert_eq.
    + by apply IH.
Qed.

Lemma fresh_ids_app m l1 l2 :
  fresh_ids m l1 → fresh_ids (register_all m l1) l2 → fresh_ids m (l1 ++ l2).
Proof.
  intros [Hnd1 Hf1] [Hnd2 Hf2]. split.
  - rewrite map_app. apply NoDup_app. split; [done|]. split; [|done].
    intros i Hi1 Hi2. apply list_elem_of_fmap in Hi2 as (p & -> & Hp).
    apply Hf2, register_all_lookup_None in Hp as [_ Hp]. done.
  - intros p [Hp|Hp]%elem_of_app; [by apply Hf1|].
    apply Hf2, register_all_lookup_None in Hp as [Hp _]. done.
Qed.

Lemma fresh_ids_nil m : fresh_ids m [].
Proof. split; [constructor|]. intros p Hp. by apply elem_of_nil in Hp. Qed.

Lemma fresh_ids_singleton m p : m !! plugin_id p = None → fresh_ids m [p].
Proof.
  intros Hm. split; [apply NoDup_singleton|].
  intros q Hq. apply list_elem_of_singleton in Hq as ->. done.
Qed.

Section Resolution.
Context `{Externals}.

Lemma initPluginCtx_spec id path w :
  ∃ ctx r, initPluginCtx id path w
           = (Ok ctx, {| kernel := set_registry r (kernel w);
                         store := store w; trace := trace w |}).
Proof.
  destruct w as [[] st tr].
  unfold initPluginCtx, for_each, bind, this, update, ret. simpl.
  repeat case_bool_decide; simpl; eexists _, _; reflexivity.
Qed.

Lemma registerPlugin_spec p w :
  registerPlugin p w
  = match plugins (kernel w) !! plugin_id p with
    | Some _ => (Throw (EPluginRegistered (plugin_id p)), w)
    | None => (Ok tt, {| kernel := set_plugins (<[plugin_id p := p]> (plugins (kernel w)))
                                     (kernel w);
                         store := store w; trace := trace w |})
    end.
Proof.
  unfold registerPlugin, bind, this, throw, update.
  destruct (plugins (kernel w) !! plugin_id p) as [q|].
  - rewrite bool_decide_eq_true_2 by eauto. done.
  - rewrite bool_decide_eq_false_2; [done|]. by intros [? ?].
Qed.

Lemma initPlugin_initialises p :
  initialises initPlugin Plugin (λ p, [p]) (λ _, []) p.
Proof.
  intros w w' Hrun. unfold initPlugin, bind in Hrun.
  destruct (initPluginCtx_spec (plugin_id p) (plugin_path p) w) as (ctx & r & Hctx).
  rewrite Hctx, registerPlugin_spec in Hrun. simpl in Hrun.
  destruct (plugins (kernel w) !! plugin_id p) eqn:Hfresh; [done|].
  unfold call_apply in Hrun. simpl in Hrun.
  destruct (plugin_apply p ctx (plugin_opts p) r) as [r' o].
  injection Hrun as -> <-. split; [by apply fresh_ids_singleton|]. exists r'.
  rewrite app_nil_r. done.
Qed.

Lemma for_each_initialises (f : IPlugin -> M unit) type
    (seq ext : IPlugin -> list IPlugin) (items : list IPlugin) :
  Forall (initialises f type seq ext) items →
  initialises (for_each f) type (flat_map seq) (flat_map ext) items.
Proof.
  induction 1 as [|p items Hp _ IH]; intros w w' Hrun.
  - simpl in Hrun. injection Hrun as <-. split; [apply fresh_ids_nil|].
    exists (registry (kernel w)).
    simpl. rewrite !app_nil_r. by destruct w as [[] ? ?].
  - simpl in Hrun. unfold bind in Hrun.
    destruct (f p w) as [[[]|e] w1] eqn:Hf; [|done].
    apply Hp in Hf as [Hfr1 [r1 ->]]. apply IH in Hrun as [Hfr2 [r2 ->]].
    split; [by apply fresh_ids_app|]. exists r2.
    simpl. rewrite register_all_app, map_app, <- !app_assoc. done.
Qed.

Lemma initPreset_initialises p :
  initialises initPreset Preset preset_sequence extra_sequence p.
Proof.
  induction p as [id path opts setup declared own IH] using IPlugin_nested_ind.
  intros w w' Hrun. set (p := mkIPlugin id path opts setup declared own) in *.
  cbn [initPreset p] in Hrun. fold p in Hrun. unfold bind at 1 in Hrun.
  destruct (initPluginCtx_spec id path w) as (ctx & r & Hctx).
  rewrite Hctx in Hrun. unfold bind at 1, call_apply in Hrun. simpl in Hrun.
  destruct (setup ctx opts r) as [r1 [[]|e]]; [|done].
  unfold bind at 1 in Hrun. rewrite registerPlugin_spec in Hrun. simpl in Hrun.
  destruct (plugins (kernel w) !! id) eqn:Hfresh; [done|].
  unfold bind at 1 in Hrun.
  destruct declared as [nested|].
  - destruct (for_each initPreset nested _) as [[[]|e] w1] eqn:Hnested; [|done].
    apply (for_each_initialises _ _ _ _ _ IH) in Hnested as [Hfr [r2 ->]].
    split.
    { apply (fresh_ids_app _ [p]); [by apply fresh_ids_singleton|done]. }
    destruct own as [own|]; unfold update, ret in Hrun;
      injection Hrun as <-; exists r2; simpl;
      rewrite ?app_nil_r, <- ?app_assoc; done.
  - unfold ret at 1 in Hrun. split; [by apply fresh_ids_singleton|].
    destruct own as [own|]; unfold update, ret in Hrun;
      injection Hrun as <-; exists r1; simpl;
      rewrite ?app_nil_r, <- ?app_assoc; done.
Qed.

Lemma resolvePresets_spec decls w w' :
  resolvePresets decls w = (Ok tt, w') →
  ∃ allPresets,
    resolvePresetsOrPlugins decls Preset = Ok allPresets ∧
    fresh_ids (plugins (kernel w)) (flat_map preset_sequence allPresets) ∧
    ∃ r, w' = {| kernel := evolved (kernel w)
                   (register_all (plugins (kernel w)) (flat_map preset_sequence allPresets))
                   (extraPlugins (kernel w) ++ flat_map extra_sequence allPresets) r;
                 store := store w;
                 trace := trace w
                          ++ map (EvSetup Preset) (flat_map preset_sequence allPresets) |}.
Proof.
  unfold resolvePresets, bind, lift. intros Hrun.
  destruct (resolvePresetsOrPlugins decls Preset) as [allPresets|e]; [|done].
  exists allPresets. split; [done|].
  apply (for_each_initialises initPreset Preset preset_sequence extra_sequence) in Hrun;
    [done|].
  apply Forall_forall. intros p _. apply initPreset_initialises.
Qed.

Lemma resolvePlugins_spec decls w w' :
  resolvePlugins decls w = (Ok tt, w') →
  ∃ allPlugins,
    resolvePresetsOrPlugins decls Plugin = Ok allPlugins ∧
    fresh_ids (plugins (kernel w)) (extraPlugins (kernel w) ++ allPlugins) ∧
    ∃ r, w' = {| kernel := evolved (kernel w)
                   (register_all (plugins (kernel w)) (extraPlugins (kernel w) ++ allPlugins))
                   [] r;
                 store := store w;
                 trace := trace w
                          ++ map (EvSetup Plugin) (extraPlugins (kernel w) ++ allPlugins) |}.
Proof.
  unfold resolvePlugins, bind, lift, this. intros Hrun.
  destruct (resolvePresetsOrPlugins decls Plugin) as [allPlugins|e]; [|done].
  exists allPlugins. split; [done|].
  destruct (for_each initPlugin _ w) as [[[]|e] w1] eqn:Heach; [|done].
  apply (for_each_initialises initPlugin Plugin (λ p, [p]) (λ _, [])) in Heach.
  - destruct Heach as [Hfresh [r ->]].
    assert (Hflat : ∀ l : list IPlugin, flat_map (λ p, [p]) l = l).
    { induction l as [|x l IHl]; simpl; by rewrite ?IHl. }
    rewrite Hflat in *. split; [done|]. exists r.
    unfold update in Hrun. injection Hrun as <-. done.
  - apply Forall_forall. intros p _. apply initPlugin_initialises.
Qed.

(** A plugin whose id is already registered is refused before its setup
    function is entered. *)
Lemma initPlugin_registered p w :
  is_Some (plugins (kernel w) !! plugin_id p) →
  ∃ r, initPlugin p w
       = (Throw (EPluginRegistered (plugin_id p)),
          {| kernel := set_registry r (kernel w); store := store w; trace := trace w |}).
Proof.
  intros [q Hq]. unfold initPlugin, bind.
  destruct (initPluginCtx_spec (plugin_id p) (plugin_path p) w) as (ctx & r & ->).
  exists r. rewrite registerPlugin_spec. simpl. by rewrite Hq.
Qed.

(** A preset whose id is already registered is refused as well, but
    only once its setup function has been entered. *)
Lemma initPreset_registered p w :
  is_Some (plugins (kernel w) !! plugin_id p) →
  ∃ e w', initPreset p w = (Throw e, w') ∧
          trace w' = trace w ++ [EvSetup Preset p] ∧
          plugins (kernel w') = plugins (kernel w).
Proof.
  intros [q Hq]. destruct p as [id path opts setup declared own]. simpl in Hq.
  cbn [initPreset]. unfold bind at 1.
  destruct (initPluginCtx_spec id path w) as (ctx & r & ->).
  unfold bind at 1, call_apply. simpl.
  destruct (setup ctx opts r) as [r1 [[]|e]].
  - unfold bind at 1. rewrite registerPlugin_spec. simpl. rewrite Hq. eauto.
  - eauto.
Qed.

Lemma for_each_app {A} (f : A -> M unit) (l1 l2 : list A) w :
  for_each f (l1 ++ l2) w
  = match for_each f l1 w with
    | (Ok _, w1) => for_each f l2 w1
    | (Throw e, w1) => (Throw e, w1)
    end.
Proof.
  revert w. induction l1 as [|x l1 IH]; intros w; simpl; [done|].
  unfold bind. destruct (f x w) as [[[]|e] w1]; [apply IH|done].
Qed.

(** X7: in the plugin queue, the first plugin whose id is already registered
    stops resolution: the plugins before it have been set up, and
    neither it nor any plugin after it. *)
Lemma duplicate_plugin_stops_queue (before after : list IPlugin) p w w1 :
  for_each initPlugin before w = (Ok tt, w1) →
  is_Some (plugins (kernel w1) !! plugin_id p) →
  ∃ w', for_each initPlugin (before ++ p :: after) w
        = (Throw (EPluginRegistered (plugin_id p)), w') ∧
        trace w' = trace w ++ map (EvSetup Plugin) before.
Proof.
  intros Hbefore Hdup. rewrite for_each_app, Hbefore. simpl. unfold bind.
  destruct (initPlugin_registered p w1 Hdup) as [r ->].
  eexists. split; [done|]. simpl.
  apply (for_each_initialises initPlugin Plugin (λ p, [p]) (λ _, [])) in Hbefore
    as [_ [r' ->]].
  - simpl. f_equal. f_equal. clear. induction before as [|x l IH]; simpl; by rewrite ?IH.
  - apply Forall_forall. intros x _. apply initPlugin_initialises.
Qed.

(** C9: the side queue of plugins declared by presets is empty when
    [resolvePlugins] returns: every queued plugin has been taken off it,
    set up ahead of the declared plugins and registered, and the queue
    has been reset. *)
Theorem resolvePlugins_drains_extraPlugins (decls : value) (w w' : World) :
  resolvePlugins decls w = (Ok tt, w') →
  extraPlugins (kernel w') = [] ∧
  ∃ allPlugins,
    resolvePresetsOrPlugins decls Plugin = Ok allPlugins ∧
    trace w' = trace w ++ map (EvSetup Plugin) (extraPlugins (kernel w) ++ allPlugins) ∧
    ∀ p, p ∈ extraPlugins (kernel w) → plugins (kernel w') !! plugin_id p = Some p.
Proof.
  intros Hrun. apply resolvePlugins_spec in Hrun as (allPlugins & Hres & [Hnd _] & r & ->).
  split; [done|]. exists allPlugins. split; [done|]. split; [done|].
  intros p Hp. simpl. apply register_all_lookup_fresh; [done|].
  apply elem_of_app. by left.
Qed.

(** C8: a preset [P] that declares a preset [Q] and a plugin [R].  When
    resolution goes through, the setup functions were entered in this
    order: the presets before [P]; [P], then at once the presets it
    declares, [Q] among them, each with its own nested presets; only
    then the presets after [P]; then the plugins of the side queue, [R]
    among them; and last the declared (top-level) plugins. *)
Theorem nested_preset_first_nested_plugin_deferred (presetDecls pluginDecls : value)
    (w w' : World) (pre post qs rs allPlugins : list IPlugin) (P Q R : IPlugin) :
  resolvePresetsOrPlugins presetDecls Preset = Ok (pre ++ P :: post) →
  resolvePresetsOrPlugins pluginDecls Plugin = Ok allPlugins →
  plugin_presets P = Some qs → Q ∈ qs →
  plugin_plugins P = Some rs → R ∈ rs →
  (do! resolvePresets presetDecls in resolvePlugins pluginDecls) w = (Ok tt, w') →
  let queued := extraPlugins (kernel w) ++ flat_map extra_sequence pre
                ++ (flat_map extra_sequence qs ++ rs) ++ flat_map extra_sequence post in
  trace w' = trace w
             ++ map (EvSetup Preset) (flat_map preset_sequence pre)
             ++ EvSetup Preset P :: map (EvSetup Preset) (flat_map preset_sequence qs)
             ++ map (EvSetup Preset) (flat_map preset_sequence post)
             ++ map (EvSetup Plugin) queued
             ++ map (EvSetup Plugin) allPlugins ∧
  Q ∈ flat_map preset_sequence qs ∧
  R ∈ queued.
Proof.
  intros Hpresets Hplugins HQs HQ HRs HR Hrun queued. unfold bind in Hrun.
  destruct (resolvePresets presetDecls w) as [[[]|e] w1] eqn:Hfirst; [|done].
  apply resolvePresets_spec in Hfirst as (allPresets & Hres & _ & r1 & ->).
  rewrite Hpresets in Hres. injection Hres as <-.
  apply resolvePlugins_spec in Hrun as (allPlugins' & Hres & _ & r2 & ->).
  rewrite Hplugins in Hres. injection Hres as <-.
  assert (Hseq : flat_map preset_sequence (pre ++ P :: post)
                 = flat_map preset_sequence pre
                   ++ P :: flat_map preset_sequence qs ++ flat_map preset_sequence post).
  { rewrite flat_map_app. simpl. destruct P; simpl in *. by rewrite HQs. }
  assert (Hext : extraPlugins (kernel w) ++ flat_map extra_sequence (pre ++ P :: post)
                 = queued).
  { unfold queued. rewrite flat_map_app. simpl. destruct P; simpl in *.
    by rewrite HQs, HRs. }
  split; [|split].
  - simpl. rewrite Hseq, Hext. rewrite !map_app. simpl. rewrite !map_app.
    rewrite <- !app_assoc. simpl. by rewrite <- !app_assoc.
  - apply list_elem_of_In, in_flat_map. exists Q. split; [by apply list_elem_of_In|].
    destruct Q; simpl. by left.
  - unfold queued. rewrite !elem_of_app. right. right. left. by right.
Qed.

End Resolution.

(** ** init and run *)



Lemma setups_of_calls name opts initialVal l hs :
  setups_of (calls name opts initialVal l hs) = [].
Proof.
  revert initialVal. induction hs as [|h hs IH]; intros initialVal; [done|].
  rewrite calls_cons.
  change (setups_of (EvHook name h initialVal opts :: calls name opts (VRef l) l hs))
    with (setups_of (calls name opts (VRef l) l hs)).
  apply IH.
Qed.

Lemma waterfall_promise_frame name opts st hs : ∀ pre arg w o w',
  store w = st ++ [pre] →
  waterfall_promise (map (hook_tap name opts (length st)) hs) arg w = (o, w') →
  kernel w' = kernel w ∧ ∃ evs, trace w' = trace w ++ evs ∧ setups_of evs = [].
Proof.
  induction hs as [|h hs IH]; intros pre arg w o w' Hst Hrun.
  - simpl in Hrun. injection Hrun as <- <-. split; [done|].
    exists []. by rewrite app_nil_r.
  - cbn [map waterfall_promise] in Hrun. unfold bind at 1 in Hrun.
    rewrite (hook_tap_step _ _ _ pre) in Hrun by done.
    destruct (hook_fn h arg opts (st ++ [pre])) as [r|e].
    + apply IH with (pre := pre ++ [r]) in Hrun; [|done].
      destruct Hrun as (Hk & evs & Htr & Hnone). split; [done|].
      exists (EvHook name h arg opts :: evs). simpl in Htr.
      rewrite Htr, <- app_assoc. done.
    + injection Hrun as <- <-. split; [done|]. by exists [EvHook name h arg opts].
Qed.

(** [applyPlugins] leaves the kernel as it is and enters hook handlers
    only. *)
Lemma applyPlugins_frame args w o w' :
  applyPlugins args w = (o, w') →
  kernel w' = kernel w ∧ ∃ evs, trace w' = trace w ++ evs ∧ setups_of evs = [].
Proof.
  rewrite applyPlugins_unfold. intros Hrun.
  assert (Hsame : ∀ e, (o, w') = (Throw e, w) ∨ (∃ v, (o, w') = (Ok v, w)) →
            kernel w' = kernel w ∧ ∃ evs, trace w' = trace w ++ evs ∧ setups_of evs = []).
  { intros e [Heq | [v Heq]]; injection Heq as -> ->;
      (split; [done|]; exists []; by rewrite app_nil_r). }
  destruct (chain_args args) as [[[name initialVal] opts]|e];
    [|apply (Hsame e); by left].
  destruct name; try (apply (Hsame EInvalidName); by left).
  destruct (chain_of w s) as [|h hs]; [apply (Hsame EInvalidName); right; eauto|].
  destruct (execution_order (h :: hs)) as [ord|e].
  - apply waterfall_promise_frame with (pre := []) in Hrun; [|done]. done.
  - injection Hrun as <- <-. split; [done|]. exists []. by rewrite app_nil_r.
Qed.

Section Run.
Context `{Externals}.

Lemma initPresetsAndPlugins_spec w w' :
  initPresetsAndPlugins w = (Ok tt, w') →
  ∃ ps pls r,
    declared Preset (optsPresets (kernel w)) (initialConfig (kernel w)) = Ok ps ∧
    declared Plugin (optsPlugins (kernel w)) (initialConfig (kernel w)) = Ok pls ∧
    w' = {| kernel := evolved (kernel w)
              (register_all ∅ (flat_map preset_sequence ps
                               ++ flat_map extra_sequence ps ++ pls)) [] r;
            store := store w;
            trace := trace w ++ map (EvSetup Preset) (flat_map preset_sequence ps)
                     ++ map (EvSetup Plugin) (flat_map extra_sequence ps ++ pls) |}.
Proof.
  unfold initPresetsAndPlugins, declared. intros Hrun.
  unfold bind at 1, this in Hrun. unfold bind at 1, lift at 1 in Hrun.
  destruct (get_prop (initialConfig (kernel w)) "presets") as [configPresets|e]; [|done].
  unfold bind at 1, lift at 1 in Hrun.
  destruct (mergePlugins _ _ Preset) as [allConfigPresets|e]; [|done].
  unfold bind at 1, lift at 1 in Hrun.
  destruct (get_prop (initialConfig (kernel w)) "plugins") as [configPlugins|e]; [|done].
  unfold bind at 1, lift at 1 in Hrun.
  destruct (mergePlugins _ _ Plugin) as [allConfigPlugins|e]; [|done].
  unfold bind at 1, lift at 1 in Hrun.
  destruct (get_prop (initialConfig (kernel w)) "babel") as [babel|e]; [|done].
  unfold bind at 1, lift at 1 in Hrun.
  destruct (createBabelRegister _ _ _ _) as [[]|e]; [|done].
  unfold bind at 1, update at 1 in Hrun. unfold bind at 1, update at 1 in Hrun.
  unfold bind at 1 in Hrun.
  destruct (resolvePresets allConfigPresets _) as [[[]|e] w1] eqn:Hpresets; [|done].
  apply resolvePresets_spec in Hpresets as (ps & Hps & _ & r1 & ->).
  apply resolvePlugins_spec in Hrun as (pls & Hpls & _ & r2 & ->).
  exists ps, pls, r2. split; [done|]. split; [done|]. simpl.
  rewrite <- register_all_app, <- !app_assoc. done.
Qed.

Lemma run_unfold args w :
  run args w
  = match run_args args with
    | Ok (name, opts) =>
        match started w with
        | (Ok _, w1) =>
            if negb (map_has (commands (registry (kernel w1))) name) then
              (Throw (ENoCommand name), w1)
            else
              match get_prop opts "platform" with
              | Ok platform =>
                  if truthy platform then
                    match runWithPlatform platform w1 with
                    | (Ok withNameConfig, w2) =>
                        match set_prop opts "config" withNameConfig with
                        | Ok opts' =>
                            match applyPlugins (VObj [("name", name); ("opts", opts')]) w2 with
                            | (Ok _, w3) => (Ok tt, w3)
                            | (Throw e, w3) => (Throw e, w3)
                            end
                        | Throw e => (Throw e, w2)
                        end
                    | (Throw e, w2) => (Throw e, w2)
                    end
                  else
                    match applyPlugins (VObj [("name", name); ("opts", opts)]) w1 with
                    | (Ok _, w3) => (Ok tt, w3)
                    | (Throw e, w3) => (Throw e, w3)
                    end
              | Throw e => (Throw e, w1)
              end
        | (Throw e, w1) => (Throw e, w1)
        end
    | Throw e => (Throw e, w)
    end.
Proof.
  unfold run, run_args, started.
  assert (Hparse :
    (if is_string args then ret (args, VUndefined)
     else bind (lift (get_prop args "name")) (λ name,
          bind (lift (get_prop args "opts")) (λ opts, ret (name, opts)))) w
    = match (if is_string args then Ok (args, VUndefined)
             else match get_prop args "name" with
                  | Ok name => match get_prop args "opts" with
                               | Ok opts => Ok (name, opts)
                               | Throw e => Throw e
                               end
                  | Throw e => Throw e
                  end) with
      | Ok x => (Ok x, w)
      | Throw e => (Throw e, w)
      end).
  { destruct (is_string args); [done|]. unfold bind, lift, ret.
    destruct (get_prop args "name"); [|done]. by destruct (get_prop args "opts"). }
  unfold bind at 1. rewrite Hparse. clear Hparse.
  destruct (if is_string args then _ else _) as [[name opts]|e]; [|done].
  unfold bind, this, throw, lift, ret.
  destruct (init w) as [[[]|e] w0]; [|done].
  destruct (applyPlugins (VStr "onStart") w0) as [[v|e] w1]; [|done].
  destruct (negb (map_has (commands (registry (kernel w1))) name)); [done|].
  destruct (get_prop opts "platform") as [platform|e]; [|done].
  destruct (truthy platform).
  - fold (@bind Kernel value) (@throw value) this. fold (runWithPlatform platform).
    destruct (runWithPlatform platform w1) as [[withNameConfig|e] w2]; [|done].
    destruct (set_prop opts "config" withNameConfig) as [opts'|e]; [|done].
    by destruct (applyPlugins _ w2) as [[?|?] ?].
  - by destruct (applyPlugins _ w1) as [[?|?] ?].
Qed.

Lemma runWithPlatform_unregistered p w :
  platforms (registry (kernel w)) !! p = None →
  runWithPlatform (VStr p) w = (Throw (ENoPlatform (VStr p)), w).
Proof.
  intros Hnone. unfold runWithPlatform, bind, this, throw, map_has.
  rewrite Hnone. rewrite bool_decide_eq_false_2; [done|]. by intros [? ?].
Qed.

(** C7, as amended: [run] with [options.platform] set (a non-empty
    name, which is what [if (opts.platform)] takes for set) to a
    platform that is not in the platform registry fails, whether or not
    the command is registered: with the error of [init] or of the
    [onStart] chain if they fail, with the kernel's unknown-command
    error if the command is not registered, and else with what
    [runWithPlatform] throws.  The world it leaves is the one in which
    [init] and the [onStart] chain ended: the chain of the command is
    not dispatched. *)
Theorem run_unregistered_platform_fails (args name opts : value) (p : string)
    (w w1 : World) (o1 : outcome unit) :
  run_args args = Ok (name, opts) →
  get_prop opts "platform" = Ok (VStr p) →
  p ≠ EmptyString →
  started w = (o1, w1) →
  (o1 = Ok tt → platforms (registry (kernel w1)) !! p = None) →
  run args w
  = (Throw match o1 with
           | Throw e => e
           | Ok _ => if map_has (commands (registry (kernel w1))) name
                     then ENoPlatform (VStr p) else ENoCommand name
           end,
     w1).
Proof.
  intros Hargs Hplatform Hset Hstarted Hnone.
  rewrite run_unfold, Hargs, Hstarted.
  destruct o1 as [[]|e]; [|done]. specialize (Hnone eq_refl).
  destruct (map_has (commands (registry (kernel w1))) name); simpl; [|done].
  rewrite Hplatform. simpl.
  apply String.eqb_neq in Hset. rewrite Hset. simpl.
  by rewrite runWithPlatform_unregistered.
Qed.

(** C10, as amended: [run] called with a bare command name, with an
    object without [opts], or with [opts] null, always fails, and the
    world it leaves is the one in which [init] and the [onStart] chain
    ended: the command's chain is not dispatched.  When these went
    through and the command is registered, the failure is the TypeError
    of reading [opts.platform].  Any other [opts] whose [platform] is
    not set, an object or not, is handed on as it is: the command's
    chain is dispatched with it in the world left by [onStart]. *)
Theorem run_without_opts_fails (args name opts : value) (w w1 : World) (o1 : outcome unit) :
  run_args args = Ok (name, opts) →
  started w = (o1, w1) →
  (opts = VUndefined ∨ opts = VNull →
   run args w
   = (Throw match o1 with
            | Throw e => e
            | Ok _ => if map_has (commands (registry (kernel w1))) name
                      then ETypeError "platform" else ENoCommand name
            end,
      w1)) ∧
  (∀ platform,
     o1 = Ok tt →
     map_has (commands (registry (kernel w1))) name = true →
     get_prop opts "platform" = Ok platform →
     truthy platform = false →
     run args w = dispatch name opts w1).
Proof.
  intros Hargs Hstarted. rewrite run_unfold, Hargs, Hstarted. split.
  - intros Hopts. destruct o1 as [[]|e]; [|done].
    destruct (map_has (commands (registry (kernel w1))) name); [|done].
    by destruct Hopts as [-> | ->].
  - intros platform -> Hcommand Hplatform Hunset.
    rewrite Hcommand, Hplatform, Hunset. simpl.
    unfold dispatch, bind, ret. by destruct (applyPlugins _ w1) as [[?|?] ?].
Qed.

End Run.

(** * Further properties of the kernel *)

(** ** The hook runner *)

(** X1: [applyPlugins] called with something that is neither a string
    nor an object with a string [name] throws at once, a TypeError when
    there is nothing to read [name] from and the kernel's own error
    otherwise, and nothing has happened: no array allocated, no handler
    entered. *)
Theorem applyPlugins_without_name_throws (args : value) (w : World) :
  is_string args = false →
  (∀ s, get_prop args "name" ≠ Ok (VStr s)) →
  applyPlugins args w
  = (Throw match args with
           | VUndefined | VNull => ETypeError "name"
           | _ => EInvalidName
           end, w).
Proof.
  intros Hstr Hname. rewrite applyPlugins_unfold. unfold chain_args. rewrite Hstr.
  destruct args; try done; simpl in *;
    try (destruct (default VUndefined (assoc "name" fields)) eqn:Hn; try done;
         by destruct (Hname s)).
Qed.

Lemma insert_down_splits {F} (item : Tap F) : ∀ before rtaps,
  ∃ r1 r2, rtaps = r1 ++ r2 ∧ insert_down item before rtaps = r1 ++ item :: r2.
Proof.
  intros before rtaps. revert before.
  induction rtaps as [|x rest IH]; intros before; simpl.
  - by exists [], [].
  - repeat case_match;
      try (destruct (IH before) as (r1 & r2 & -> & ->); by exists (x :: r1), r2);
      try (destruct (IH (remove_name (tap_name x) before)) as (r1 & r2 & -> & ->);
           by exists (x :: r1), r2).
    by exists [], (x :: rest).
Qed.

(** [_insert] puts the new tap somewhere among the taps that are there,
    which keep their order. *)
Lemma _insert_splits {F} (item : Tap F) taps :
  ∃ t1 t2, taps = t1 ++ t2 ∧ _insert item taps = t1 ++ item :: t2.
Proof.
  unfold _insert.
  destruct (insert_down_splits item (before_set (tap_before item)) (rev taps))
    as (r1 & r2 & Hr & ->).
  exists (rev r2), (rev r1). split.
  - rewrite <- rev_app_distr, <- Hr. by rewrite rev_involutive.
  - rewrite rev_app_distr. simpl. by rewrite <- app_assoc.
Qed.

Lemma tap_each_permutation {F} (items : list (Tap F)) : ∀ acc taps,
  tap_each items acc = Ok taps → taps ≡ₚ acc ++ items.
Proof.
  induction items as [|item items IH]; intros acc taps; simpl.
  - intros [= ->]. by rewrite app_nil_r.
  - unfold tapPromise. destruct (String.eqb _ _); [done|]. intros Heach.
    apply IH in Heach. rewrite Heach.
    destruct (_insert_splits item acc) as (t1 & t2 & -> & ->).
    rewrite <- !app_assoc. simpl.
    rewrite (Permutation_middle t2 items item).
    by rewrite <- Permutation_middle.
Qed.

Lemma execution_order_permutation hooks ord :
  execution_order hooks = Ok ord → ord ≡ₚ hooks.
Proof.
  unfold execution_order.
  destruct (tap_each (map plain_tap hooks) []) as [taps|e] eqn:Heach; [|done].
  intros [= <-]. apply tap_each_permutation in Heach. simpl in Heach.
  rewrite Heach, map_map. simpl. by rewrite map_id.
Qed.

(** X2: the taps that [applyPlugins] sets up are the hooks registered
    under the name, each of them once, whatever the stages and [before]
    constraints; and when the call resolves it has invoked each of them
    exactly once, in the order of the taps, and no other.  (The log
    shows the handlers that the call itself enters; a handler that
    calls back into the kernel is outside the model.) *)
Theorem applyPlugins_enters_each_handler_once (args : value) (name : string)
    (initialVal opts v : value) (w w' : World) :
  chain_args args = Ok (VStr name, initialVal, opts) →
  applyPlugins args w = (Ok v, w') →
  ∃ ord, execution_order (chain_of w name) = Ok ord ∧
         ord ≡ₚ chain_of w name ∧
         trace w' = trace w ++ calls name opts initialVal (length (store w)) ord.
Proof.
  intros Hargs. rewrite applyPlugins_unfold, Hargs.
  destruct (chain_of w name) as [|h hs] eqn:Hchain.
  - intros [= <- <-]. exists []. split; [done|]. split; [done|].
    unfold calls. simpl. by rewrite app_nil_r.
  - destruct (execution_order (h :: hs)) as [ord|e] eqn:Hord; [|done].
    intros Hrun. apply waterfall_promise_resolved with (pre := []) in Hrun; [|done].
    destruct Hrun as (rs & _ & _ & _ & ->). simpl.
    exists ord. split; [done|]. split; [|done].
    by apply execution_order_permutation.
Qed.

Lemma tap_each_snoc {F} (items : list (Tap F)) (item : Tap F) : ∀ acc,
  tap_each (items ++ [item]) acc
  = match tap_each items acc with
    | Ok taps => tapPromise item taps
    | Throw e => Throw e
    end.
Proof.
  induction items as [|x items IH]; intros acc; simpl.
  - by destruct (tapPromise item acc).
  - destruct (tapPromise x acc); [apply IH|done].
Qed.

Lemma tap_each_plain hooks : ∀ l taps,
  tap_each (map plain_tap hooks) (map plain_tap l) = Ok taps →
  ∃ ord, taps = map plain_tap ord.
Proof.
  induction hooks as [|h hooks IH]; intros l taps; simpl.
  - intros [= <-]. by exists l.
  - unfold tapPromise. destruct (String.eqb _ _); [done|].
    destruct (_insert_splits (plain_tap h) (map plain_tap l)) as (t1 & t2 & Hl & ->).
    apply map_eq_app in Hl as (l1 & l2 & -> & <- & <-).
    change (map plain_tap l1 ++ plain_tap h :: map plain_tap l2)
      with (map plain_tap l1 ++ map plain_tap (h :: l2)).
    rewrite <- map_app. apply IH.
Qed.

Lemma execution_order_taps hooks ord :
  execution_order hooks = Ok ord →
  tap_each (map plain_tap hooks) [] = Ok (map plain_tap ord).
Proof.
  unfold execution_order.
  destruct (tap_each (map plain_tap hooks) []) as [taps|e] eqn:Heach; [|done].
  intros [= <-]. apply (tap_each_plain hooks []) in Heach as [ord ->].
  f_equal. rewrite !map_map. by apply map_ext.
Qed.

Lemma execution_order_snoc hooks h ord :
  execution_order hooks = Ok ord →
  hook_plugin h ≠ EmptyString →
  execution_order (hooks ++ [h])
  = Ok (map tap_fn (_insert (plain_tap h) (map plain_tap ord))).
Proof.
  intros Hord Hname. apply execution_order_taps in Hord.
  unfold execution_order. rewrite map_app. simpl. rewrite tap_each_snoc, Hord.
  unfold tapPromise. simpl. apply String.eqb_neq in Hname. by rewrite Hname.
Qed.

(** While names are still awaited, the walk passes every tap that is
    not one of them. *)
Lemma insert_down_passes {F} (item : Tap F) before (r1 r : list (Tap F)) :
  before ≠ [] →
  Forall (λ y, tap_name y ∉ before) r1 →
  insert_down item before (r1 ++ r) = r1 ++ insert_down item before r.
Proof.
  intros Hne. induction 1 as [|y r1 Hy _ IH]; simpl; [done|].
  rewrite bool_decide_eq_false_2 by done.
  rewrite (bool_decide_eq_false_2 (before = [])) by done. simpl. by rewrite IH.
Qed.

Lemma remove_name_only n : remove_name n [n] = [].
Proof. unfold remove_name. by rewrite filter_cons_False by (intros Hn; by apply Hn). Qed.

(** X4: a hook registered with [before: n] runs ahead of the hook of
    plugin [n] that runs last, whatever the stages of the two; the hooks
    that ran before that one keep their order, and so do those after
    it. *)
Theorem before_runs_ahead_of_named_plugin (hooks o1 o2 : list IHook) (h x : IHook)
    (n : string) :
  execution_order hooks = Ok (o1 ++ x :: o2) →
  hook_before h = BStr n →
  hook_plugin h ≠ EmptyString →
  hook_plugin x = n →
  Forall (λ y, hook_plugin y ≠ n) o2 →
  ∃ a b, o1 = a ++ b ∧
         execution_order (hooks ++ [h]) = Ok (a ++ h :: b ++ x :: o2).
Proof.
  intros Hord Hbefore Hname Hx Ho2.
  rewrite (execution_order_snoc hooks h _ Hord Hname).
  destruct (insert_down_splits (plain_tap h) [] (map plain_tap (rev o1)))
    as (r1 & r2 & Hr & Hins).
  apply map_eq_app in Hr as (l1 & l2 & Hl & <- & <-).
  exists (rev l2), (rev l1). split.
  { rewrite <- rev_app_distr, <- Hl. by rewrite rev_involutive. }
  f_equal. unfold _insert. simpl. rewrite Hbefore. simpl.
  rewrite <- map_rev, rev_app_distr. simpl.
  rewrite <- (app_assoc (rev o2) [x] (rev o1)). simpl.
  rewrite map_app. rewrite insert_down_passes; [|done|].
  2:{ apply Forall_forall. intros t Ht.
      apply list_elem_of_In, in_map_iff in Ht as (y & <- & Hy). simpl.
      apply in_rev in Hy. rewrite Forall_forall in Ho2.
      intros Hin%list_elem_of_singleton. apply (Ho2 y); [by apply list_elem_of_In|done]. }
  cbn [map insert_down]. cbn [plain_tap tap_name]. rewrite Hx.
  rewrite bool_decide_eq_true_2 by apply list_elem_of_here.
  rewrite remove_name_only.
  change {| tap_name := hook_plugin h; tap_stage := default 0 (hook_stage h);
            tap_before := hook_before h; tap_fn := h |} with (plain_tap h).
  rewrite Hins.
  change {| tap_name := n; tap_stage := default 0 (hook_stage x);
            tap_before := hook_before x; tap_fn := x |}
    with {| tap_name := n; tap_stage := tap_stage (plain_tap x);
            tap_before := tap_before (plain_tap x); tap_fn := tap_fn (plain_tap x) |}.
  rewrite rev_app_distr. simpl. rewrite rev_app_distr. simpl.
  rewrite !map_app. simpl.
  assert (Hback : ∀ l, map tap_fn (rev (map plain_tap l)) = rev l).
  { intros l. rewrite <- map_rev, map_map. simpl. apply map_id. }
  rewrite !Hback, rev_involutive, <- !app_assoc. done.
Qed.

(** X5: a hook registered with [before: n] when no hook of plugin [n]
    is on the chain runs first of all, whatever its stage. *)
Theorem before_absent_plugin_runs_first (hooks ord : list IHook) (h : IHook) (n : string) :
  execution_order hooks = Ok ord →
  hook_before h = BStr n →
  hook_plugin h ≠ EmptyString →
  Forall (λ y, hook_plugin y ≠ n) ord →
  execution_order (hooks ++ [h]) = Ok (h :: ord).
Proof.
  intros Hord Hbefore Hname Habsent.
  rewrite (execution_order_snoc hooks h _ Hord Hname).
  unfold _insert. simpl. rewrite Hbefore. simpl.
  rewrite <- (app_nil_r (rev (map plain_tap ord))).
  rewrite insert_down_passes; [|done|].
  - simpl. rewrite rev_app_distr, rev_involutive. simpl.
    rewrite map_map. simpl. by rewrite map_id.
  - apply Forall_forall. intros t Ht.
    apply list_elem_of_In, in_rev, in_map_iff in Ht as (y & <- & Hy). simpl.
    rewrite Forall_forall in Habsent.
    intros Hin%list_elem_of_singleton. apply (Habsent y); [by apply list_elem_of_In|done].
Qed.

(** ** Resolution *)

(** X6: registering a plugin under an id that is free makes the plugins
    map return it under that id, leaves every other id as it was, and
    makes any later registration under the same id throw without
    changing anything. *)
Theorem registerPlugin_once (p : IPlugin) (w : World) :
  plugins (kernel w) !! plugin_id p = None →
  ∃ w', registerPlugin p w = (Ok tt, w') ∧
        plugins (kernel w') !! plugin_id p = Some p ∧
        (∀ i, i ≠ plugin_id p → plugins (kernel w') !! i = plugins (kernel w) !! i) ∧
        ∀ q, plugin_id q = plugin_id p →
             registerPlugin q w' = (Throw (EPluginRegistered (plugin_id p)), w').
Proof.
  intros Hfree. rewrite registerPlugin_spec, Hfree. eexists. split; [done|]. simpl.
  split; [apply lookup_insert_eq|]. split.
  - intros i Hi. by apply lookup_insert_ne.
  - intros q Hq. rewrite registerPlugin_spec. simpl. rewrite Hq, lookup_insert_eq. done.
Qed.

(** X8: an item whose id is already registered is refused either way,
    and the plugins map and the side queue stay as they were.  As a
    plugin it is refused before its setup function is entered; as a
    preset only after its setup function has been entered, and then
    with the error of the setup function if that threw, and with the
    kernel's own otherwise. *)
Theorem registered_id_refused (p : IPlugin) (w : World) :
  is_Some (plugins (kernel w) !! plugin_id p) →
  (∃ w', initPlugin p w = (Throw (EPluginRegistered (plugin_id p)), w') ∧
         trace w' = trace w ∧
         plugins (kernel w') = plugins (kernel w) ∧
         extraPlugins (kernel w') = extraPlugins (kernel w)) ∧
  (∃ e w', initPreset p w = (Throw e, w') ∧
           trace w' = trace w ++ [EvSetup Preset p] ∧
           plugins (kernel w') = plugins (kernel w) ∧
           extraPlugins (kernel w') = extraPlugins (kernel w) ∧
           (e = EPluginRegistered (plugin_id p) ∨
            ∃ ctx r, (plugin_apply p ctx (plugin_opts p) r).2 = Throw e)).
Proof.
  intros Hreg. split.
  - destruct (initPlugin_registered p w Hreg) as [r ->].
    eexists. split; [reflexivity|]. by destruct w as [[] ? ?].
  - destruct Hreg as [q Hq]. destruct p as [id path opts setup declared own].
    simpl in Hq. cbn [initPreset]. unfold bind at 1.
    destruct (initPluginCtx_spec id path w) as (ctx & r & ->).
    unfold bind at 1, call_apply. simpl.
    destruct (setup ctx opts r) as [r1 o] eqn:Hsetup. destruct o as [[]|e].
    + unfold bind at 1. rewrite registerPlugin_spec. simpl. rewrite Hq.
      eexists _, _. split; [reflexivity|]. simpl.
      destruct w as [[] ? ?]. simpl. auto.
    + eexists _, _. split; [reflexivity|]. simpl.
      destruct w as [[] ? ?]. simpl. repeat split.
      right. exists ctx, r. by rewrite Hsetup.
Qed.

Lemma register_all_lookup_Some items : ∀ m i p,
  NoDup (map plugin_id items) →
  (∀ q, q ∈ items → m !! plugin_id q = None) →
  register_all m items !! i = Some p ↔
  m !! i = Some p ∨ (p ∈ items ∧ plugin_id p = i).
Proof.
  induction items as [|x items IH]; intros m i p Hnd Hfresh; simpl.
  - split; [by left|]. intros [?|[Hin _]]; [done|]. by apply elem_of_nil in Hin.
  - apply NoDup_cons in Hnd as [Hx Hnd]. rewrite IH; [|done|].
    + destruct (decide (plugin_id x = i)) as [<-|Hne].
      * rewrite lookup_insert_eq. rewrite (Hfresh x) by apply list_elem_of_here. split.
        -- intros [[= <-]|[Hin Hid]]; right; split; try done.
           ++ apply list_elem_of_here.
           ++ by apply list_elem_of_further.
        -- intros [?|[Hin Hid]]; [done|]. apply elem_of_cons in Hin as [->|Hin].
           ++ by left.
           ++ right. done.
      * rewrite lookup_insert_ne by done. split.
        -- intros [?|[Hin Hid]]; [by left|]. right. split; [|done].
           by apply list_elem_of_further.
        -- intros [?|[Hin Hid]]; [by left|]. apply elem_of_cons in Hin as [->|Hin]; [done|].
           right. done.
    + intros q Hq. rewrite lookup_insert_ne; [apply Hfresh; by apply list_elem_of_further|].
      intros Heq. apply Hx. rewrite Heq. apply list_elem_of_fmap. by exists q.
Qed.

Section MoreResolution.
Context `{Externals}.

(** X9: when [initPresetsAndPlugins] returns, the presets and plugins
    whose setup functions it has entered have ids that differ from one
    another, the plugins map holds exactly these items, each under its
    id, whatever it held before, and the side queue is empty. *)
Theorem initPresetsAndPlugins_registers_each_once (w w' : World) :
  initPresetsAndPlugins w = (Ok tt, w') →
  ∃ asPresets asPlugins,
    trace w' = trace w ++ map (EvSetup Preset) asPresets ++ map (EvSetup Plugin) asPlugins ∧
    NoDup (map plugin_id (asPresets ++ asPlugins)) ∧
    (∀ i p, plugins (kernel w') !! i = Some p ↔
            p ∈ asPresets ++ asPlugins ∧ plugin_id p = i) ∧
    extraPlugins (kernel w') = [].
Proof.
  unfold initPresetsAndPlugins. intros Hrun.
  unfold bind at 1, this in Hrun. unfold bind at 1, lift at 1 in Hrun.
  destruct (get_prop (initialConfig (kernel w)) "presets") as [configPresets|e]; [|done].
  unfold bind at 1, lift at 1 in Hrun.
  destruct (mergePlugins _ _ Preset) as [allConfigPresets|e]; [|done].
  unfold bind at 1, lift at 1 in Hrun.
  destruct (get_prop (initialConfig (kernel w)) "plugins") as [configPlugins|e]; [|done].
  unfold bind at 1, lift at 1 in Hrun.
  destruct (mergePlugins _ _ Plugin) as [allConfigPlugins|e]; [|done].
  unfold bind at 1, lift at 1 in Hrun.
  destruct (get_prop (initialConfig (kernel w)) "babel") as [babel|e]; [|done].
  unfold bind at 1, lift at 1 in Hrun.
  destruct (createBabelRegister _ _ _ _) as [[]|e]; [|done].
  unfold bind at 1, update at 1 in Hrun. unfold bind at 1, update at 1 in Hrun.
  unfold bind at 1 in Hrun.
  destruct (resolvePresets allConfigPresets _) as [[[]|e] w1] eqn:Hpresets; [|done].
  apply resolvePresets_spec in Hpresets as (ps & Hps & Hfresh1 & r1 & ->).
  apply resolvePlugins_spec in Hrun as (pls & Hpls & Hfresh2 & r2 & ->).
  simpl in *.
  exists (flat_map preset_sequence ps), (flat_map extra_sequence ps ++ pls).
  pose proof (fresh_ids_app _ _ _ Hfresh1 Hfresh2) as [Hnd Hnone].
  split; [by rewrite <- !app_assoc|]. split; [done|]. split; [|done].
  intros i p. rewrite <- register_all_app.
  rewrite register_all_lookup_Some; [|done|done].
  rewrite lookup_empty. split; [by intros [?|?]|by right].
Qed.

(** X10: a setup function that throws.  A plugin is registered before
    its setup function is entered and stays registered when that
    throws; a preset is registered after it, and is not.  Either way the
    error is the one the setup function threw. *)
Theorem throwing_setup_registers_plugin_not_preset (p : IPlugin) (e : error) (w : World) :
  plugins (kernel w) !! plugin_id p = None →
  (∀ ctx r, (plugin_apply p ctx (plugin_opts p) r).2 = Throw e) →
  (∃ w', initPlugin p w = (Throw e, w') ∧
         plugins (kernel w') !! plugin_id p = Some p ∧
         trace w' = trace w ++ [EvSetup Plugin p]) ∧
  (∃ w', initPreset p w = (Throw e, w') ∧
         plugins (kernel w') = plugins (kernel w) ∧
         extraPlugins (kernel w') = extraPlugins (kernel w) ∧
         trace w' = trace w ++ [EvSetup Preset p]).
Proof.
  intros Hfree Hthrows. split.
  - unfold initPlugin, bind.
    destruct (initPluginCtx_spec (plugin_id p) (plugin_path p) w) as (ctx & r & ->).
    rewrite registerPlugin_spec. simpl. rewrite Hfree. unfold call_apply. simpl.
    specialize (Hthrows ctx r).
    destruct (plugin_apply p ctx (plugin_opts p) r) as [r' o]. simpl in Hthrows. subst o.
    eexists. split; [done|]. simpl. split; [apply lookup_insert_eq|done].
  - destruct p as [id path opts setup declared own]. simpl in *.
    unfold bind at 1.
    destruct (initPluginCtx_spec id path w) as (ctx & r & ->).
    unfold bind at 1, call_apply. simpl. specialize (Hthrows ctx r).
    destruct (setup ctx opts r) as [r' o]. simpl in Hthrows. subst o.
    eexists. split; [done|]. done.
Qed.

Lemma initPlugin_outcome p w o w' :
  initPlugin p w = (o, w') →
  extraPlugins (kernel w') = extraPlugins (kernel w) ∧
  (trace w' = trace w ∨ trace w' = trace w ++ [EvSetup Plugin p]) ∧
  (o = Ok tt → trace w' = trace w ++ [EvSetup Plugin p]).
Proof.
  unfold initPlugin, bind.
  destruct (initPluginCtx_spec (plugin_id p) (plugin_path p) w) as (ctx & r & ->).
  rewrite registerPlugin_spec. simpl.
  destruct (plugins (kernel w) !! plugin_id p).
  - intros [= <- <-]. simpl. split; [done|]. split; [by left|done].
  - unfold call_apply. simpl.
    destruct (plugin_apply p ctx (plugin_opts p) r) as [r' o'].
    intros [= <- <-]. simpl. split; [done|]. split; [by right|done].
Qed.

Lemma for_each_initPlugin_outcome queue : ∀ w o w',
  for_each initPlugin queue w = (o, w') →
  extraPlugins (kernel w') = extraPlugins (kernel w) ∧
  ∃ n, trace w' = trace w ++ map (EvSetup Plugin) (take n queue).
Proof.
  induction queue as [|p queue IH]; intros w o w'; simpl.
  - intros [= <- <-]. split; [done|]. exists 0%nat. by rewrite app_nil_r.
  - unfold bind. destruct (initPlugin p w) as [[[]|e] w1] eqn:Hp.
    + apply initPlugin_outcome in Hp as (Hq & _ & Htr). specialize (Htr eq_refl).
      intros Hrest. apply IH in Hrest as (Hq' & n & Htr').
      split; [congruence|]. exists (S n). rewrite Htr', Htr, <- app_assoc. done.
    + apply initPlugin_outcome in Hp as (Hq & [Htr|Htr] & _); intros [= <- <-];
        (split; [done|]).
      * exists 0%nat. by rewrite Htr, app_nil_r.
      * exists 1%nat. by rewrite Htr.
Qed.

(** X11: when [resolvePlugins] throws, the side queue is left as it
    was, not reset, and the setup functions entered are those of the
    first plugins of the queue (side queue, then declared plugins), in
    order. *)
Theorem resolvePlugins_failure_keeps_queue (decls : value) (e : error) (w w' : World) :
  resolvePlugins decls w = (Throw e, w') →
  extraPlugins (kernel w') = extraPlugins (kernel w) ∧
  (resolvePresetsOrPlugins decls Plugin = Throw e ∧ w' = w ∨
   ∃ allPlugins n,
     resolvePresetsOrPlugins decls Plugin = Ok allPlugins ∧
     trace w' = trace w
                ++ map (EvSetup Plugin) (take n (extraPlugins (kernel w) ++ allPlugins))).
Proof.
  unfold resolvePlugins, bind, lift, this.
  destruct (resolvePresetsOrPlugins decls Plugin) as [allPlugins|e0].
  - destruct (for_each initPlugin _ w) as [[[]|e1] w1] eqn:Heach; [done|].
    intros [= <- <-]. apply for_each_initPlugin_outcome in Heach as (Hq & n & Htr).
    split; [done|]. right. by exists allPlugins, n.
  - intros [= <- <-]. split; [done|]. by left.
Qed.

End MoreResolution.

(** ** init and run *)

Lemma waterfall_promise_entries name opts st hs : ∀ pre arg w o w',
  store w = st ++ [pre] →
  waterfall_promise (map (hook_tap name opts (length st)) hs) arg w = (o, w') →
  kernel w' = kernel w ∧
  ∃ evs, trace w' = trace w ++ evs ∧ Forall (entry_of name opts) evs ∧
         ((∃ v, o = Ok v) → hooks_of evs = hs).
Proof.
  induction hs as [|h hs IH]; intros pre arg w o w' Hst Hrun.
  - simpl in Hrun. injection Hrun as <- <-. split; [done|].
    exists []. by rewrite app_nil_r.
  - cbn [map waterfall_promise] in Hrun. unfold bind at 1 in Hrun.
    rewrite (hook_tap_step _ _ _ pre) in Hrun by done.
    destruct (hook_fn h arg opts (st ++ [pre])) as [r|e].
    + apply IH with (pre := pre ++ [r]) in Hrun; [|done].
      destruct Hrun as (Hk & evs & Htr & Hall & Hok). split; [done|].
      exists (EvHook name h arg opts :: evs). simpl in Htr.
      rewrite Htr, <- app_assoc. split; [done|]. split.
      * constructor; [by exists h, arg|done].
      * intros Hv. change (hooks_of (EvHook name h arg opts :: evs)) with (h :: hooks_of evs).
        by rewrite Hok.
    + injection Hrun as <- <-. split; [done|].
      exists [EvHook name h arg opts]. split; [done|]. split.
      * constructor; [by exists h, arg|done].
      * by intros [v Hv].
Qed.

(** A call of [applyPlugins] leaves the kernel as it is; it enters
    handlers of the named chain only, with the options it was given,
    and when it resolves it has entered each of them once. *)
Lemma applyPlugins_entries args name initialVal opts w o w' :
  chain_args args = Ok (VStr name, initialVal, opts) →
  applyPlugins args w = (o, w') →
  kernel w' = kernel w ∧
  ∃ evs, trace w' = trace w ++ evs ∧ Forall (entry_of name opts) evs ∧
         ((∃ v, o = Ok v) → hooks_of evs ≡ₚ chain_of w name).
Proof.
  intros Hargs. rewrite applyPlugins_unfold, Hargs.
  destruct (chain_of w name) as [|h hs] eqn:Hchain.
  - intros [= <- <-]. split; [done|]. exists []. by rewrite app_nil_r.
  - destruct (execution_order (h :: hs)) as [ord|e] eqn:Hord.
    + intros Hrun. apply waterfall_promise_entries with (pre := []) in Hrun; [|done].
      destruct Hrun as (Hk & evs & Htr & Hall & Hok). split; [done|].
      exists evs. split; [done|]. split; [done|].
      intros Hv. rewrite (Hok Hv). by apply execution_order_permutation.
    + intros [= <- <-]. split; [done|]. exists []. rewrite app_nil_r.
      split; [done|]. split; [done|]. by intros [v Hv].
Qed.

Lemma assoc_set_eq key x fields : assoc key (assoc_set key x fields) = Some x.
Proof.
  induction fields as [|[k v] fields IH]; simpl.
  - by rewrite String.eqb_refl.
  - destruct (String.eqb k key) eqn:Hk; simpl; rewrite Hk; [done|apply IH].
Qed.

Lemma assoc_set_ne key key' x fields :
  key' ≠ key → assoc key' (assoc_set key x fields) = assoc key' fields.
Proof.
  intros Hne. induction fields as [|[k v] fields IH]; simpl.
  - apply not_eq_sym, String.eqb_neq in Hne. by rewrite Hne.
  - destruct (String.eqb k key) eqn:Hk; simpl.
    + apply String.eqb_eq in Hk as ->.
      apply not_eq_sym, String.eqb_neq in Hne. by rewrite Hne.
    + by rewrite IH.
Qed.

Lemma applyPlugins_resolves_to_array args name initialVal opts w v w' :
  chain_args args = Ok (VStr name, initialVal, opts) →
  chain_of w name ≠ [] →
  applyPlugins args w = (Ok v, w') →
  v = VRef (length (store w)).
Proof.
  intros Hargs Hsome. rewrite applyPlugins_unfold, Hargs.
  destruct (chain_of w name) as [|h hs] eqn:Hchain; [done|].
  destruct (execution_order (h :: hs)) as [ord|e] eqn:Hord; [|done].
  intros Hrun. apply waterfall_promise_resolved with (pre := []) in Hrun; [|done].
  destruct Hrun as (rs & _ & _ & -> & _).
  destruct ord; [|done]. by apply execution_order_nil_inv in Hord.
Qed.

Section MoreRun.
Context `{Externals}.

(** X13: [init] on a kernel that already has a handler on
    [modifyConfig] cannot succeed.  The chain resolves to its results
    array, which becomes the initial configuration; [initPaths] then
    finds no [sourceRoot] on it and [path.join] throws.  No preset or
    plugin is touched: the plugins map and the registries are as they
    were, and only [modifyConfig] handlers have been entered. *)
Theorem init_fails_with_modifyConfig_handlers (w : World) :
  chain_of w "modifyConfig" ≠ [] →
  ∃ e w', init w = (Throw e, w') ∧
          plugins (kernel w') = plugins (kernel w) ∧
          registry (kernel w') = registry (kernel w) ∧
          ∃ evs, trace w' = trace w ++ evs ∧
                 Forall (entry_of "modifyConfig" VUndefined) evs.
Proof.
  intros Hsome. unfold init. unfold bind at 1.
  unfold initConfig. unfold bind at 1, this. unfold bind at 1, lift at 1.
  destruct (newConfig _ _ _) as [c|e].
  2:{ exists e, w. repeat split; try done. exists []. by rewrite app_nil_r. }
  unfold bind at 1, update at 1. unfold bind at 1.
  match goal with |- context [applyPlugins ?a ?w0] =>
    destruct (applyPlugins a w0) as [[v|e] w1] eqn:Hmodify end.
  - pose proof Hmodify as Hv.
    apply (applyPlugins_resolves_to_array _ "modifyConfig" (config_initialConfig c)
             VUndefined) in Hv; [|done|done].
    apply (applyPlugins_entries _ "modifyConfig" (config_initialConfig c) VUndefined)
      in Hmodify as (Hk & evs & Htr & Hall & _); [|done].
    unfold update. unfold bind at 1.
    unfold initPaths. unfold bind at 1, this. cbn [kernel store trace].
    rewrite Hk. cbn [config set_config set_initialConfig initialConfig].
    unfold bind at 1, ret at 1. unfold bind at 1, lift at 1.
    rewrite Hv. cbn [get_prop]. unfold bind at 1, lift at 1. cbn [join].
    eexists _, _. split; [reflexivity|]. cbn [kernel trace].
    repeat split; try done. exists evs. done.
  - apply (applyPlugins_entries _ "modifyConfig" (config_initialConfig c) VUndefined)
      in Hmodify as (Hk & evs & Htr & Hall & _); [|done].
    exists e, w1. split; [done|]. rewrite Hk. repeat split; try done. by exists evs.
Qed.

Lemma runWithPlatform_registered p entry c w :
  platforms (registry (kernel w)) !! p = Some entry →
  config (kernel w) = Some c →
  runWithPlatform (VStr p) w = (getConfigWithNamed c (VStr p) (useConfigName entry), w).
Proof.
  intros Hentry Hc. unfold runWithPlatform, bind, this, map_has, lift.
  rewrite Hentry, Hc. rewrite bool_decide_eq_true_2 by eauto. done.
Qed.

(** X14: [run] on a name that is not a registered command throws the
    kernel's own error once [init] and the [onStart] chain are through,
    whatever the options; the options are not even read, and nothing is
    dispatched. *)
Theorem run_unknown_command_fails (args name opts : value) (w w1 : World) :
  run_args args = Ok (name, opts) →
  started w = (Ok tt, w1) →
  map_has (commands (registry (kernel w1))) name = false →
  run args w = (Throw (ENoCommand name), w1).
Proof.
  intros Hargs Hstarted Hnone. by rewrite run_unfold, Hargs, Hstarted, Hnone.
Qed.

(** X16: [run] on a registered command, with [options.platform] naming
    a registered platform.  The configuration that [getConfigWithNamed]
    gives for the platform and its [useConfigName] is attached to the
    options as [config], every other option is kept, and the command's
    chain is dispatched with these options in the world left by
    [onStart]; if the configuration cannot be had, nothing is
    dispatched. *)
Theorem run_attaches_platform_config (args name opts : value) (p : string)
    (entry : IPlatform) (c : Config) (w w1 : World) :
  run_args args = Ok (name, opts) →
  started w = (Ok tt, w1) →
  map_has (commands (registry (kernel w1))) name = true →
  get_prop opts "platform" = Ok (VStr p) →
  p ≠ EmptyString →
  platforms (registry (kernel w1)) !! p = Some entry →
  config (kernel w1) = Some c →
  match getConfigWithNamed c (VStr p) (useConfigName entry) with
  | Ok withNameConfig =>
      ∃ opts', run args w = dispatch name opts' w1 ∧
               get_prop opts' "config" = Ok withNameConfig ∧
               ∀ key, key ≠ "config" → get_prop opts' key = get_prop opts key
  | Throw e => run args w = (Throw e, w1)
  end.
Proof.
  intros Hargs Hstarted Hcommand Hplatform Hset Hentry Hconfig.
  rewrite run_unfold, Hargs, Hstarted, Hcommand, Hplatform. simpl.
  apply String.eqb_neq in Hset. rewrite Hset. simpl.
  rewrite (runWithPlatform_registered p entry c w1 Hentry Hconfig).
  destruct (getConfigWithNamed c (VStr p) (useConfigName entry)) as [cfg|e]; [|done].
  destruct opts as [| | | | | |fields|]; try done. simpl.
  exists (VObj (assoc_set "config" cfg fields)). split; [|split].
  - unfold dispatch, bind, ret. by destruct (applyPlugins _ w1) as [[?|?] ?].
  - simpl. by rewrite assoc_set_eq.
  - intros key Hkey. simpl. by rewrite assoc_set_ne.
Qed.

Lemma runWithPlatform_resolved platform w cfg w' :
  runWithPlatform platform w = (Ok cfg, w') →
  w' = w ∧
  ∃ p entry c,
    platform = VStr p ∧
    platforms (registry (kernel w)) !! p = Some entry ∧
    config (kernel w) = Some c ∧
    getConfigWithNamed c (VStr p) (useConfigName entry) = Ok cfg.
Proof.
  unfold runWithPlatform, bind, this, throw, lift.
  destruct (negb _); [done|].
  destruct platform as [| | | |p| | |]; try done.
  destruct (config (kernel w)) as [c|]; [|done].
  destruct (platforms (registry (kernel w)) !! p) as [entry|] eqn:Hentry; [|done].
  intros [= Hcfg <-]. split; [done|]. by exists p, entry, c.
Qed.

(** X15: [run] resolves only in these ways.  The name is a string
    naming a registered command; [init] and the [onStart] chain went
    through first; and the world [run] ends in is the one in which the
    dispatch of the command's chain ends, started from the world left
    by [onStart].  The command is dispatched either with the options as
    given, when [options.platform] is not set, or, when it names a
    registered platform, with the options and, as [config], the named
    configuration of that platform. *)
Theorem run_resolved (args name opts : value) (w w' : World) :
  run_args args = Ok (name, opts) →
  run args w = (Ok tt, w') →
  ∃ s w1 opts',
    name = VStr s ∧
    started w = (Ok tt, w1) ∧
    is_Some (commands (registry (kernel w1)) !! s) ∧
    dispatch name opts' w1 = (Ok tt, w') ∧
    (∀ key, key ≠ "config" → get_prop opts' key = get_prop opts key) ∧
    ((∃ platform, get_prop opts "platform" = Ok platform ∧ truthy platform = false ∧
                  opts' = opts) ∨
     (∃ p entry c cfg,
        get_prop opts "platform" = Ok (VStr p) ∧ p ≠ EmptyString ∧
        platforms (registry (kernel w1)) !! p = Some entry ∧
        config (kernel w1) = Some c ∧
        getConfigWithNamed c (VStr p) (useConfigName entry) = Ok cfg ∧
        get_prop opts' "config" = Ok cfg)).
Proof.
  intros Hargs. rewrite run_unfold, Hargs.
  destruct (started w) as [[[]|e] w1] eqn:Hstarted; [|done].
  destruct (map_has (commands (registry (kernel w1))) name) eqn:Hcommand; [|done].
  destruct name as [| | | |s| | |]; try done. simpl in Hcommand.
  apply bool_decide_eq_true_1 in Hcommand. simpl.
  destruct (get_prop opts "platform") as [platform|e] eqn:Hplatform; [|done].
  destruct (truthy platform) eqn:Hset.
  - destruct (runWithPlatform platform w1) as [[cfg|e] w2] eqn:Hconfig; [|done].
    apply runWithPlatform_resolved in Hconfig as (-> & p & entry & c & -> & Hentry & Hc & Hcfg).
    destruct (set_prop opts "config" cfg) as [opts'|e] eqn:Hopts'; [|done].
    destruct (applyPlugins _ w1) as [[v|e] w3] eqn:Hrun; [|done].
    intros [= <-]. exists s, w1, opts'.
    destruct opts as [| | | | | |fields|]; try done. simpl in Hopts'. injection Hopts' as <-.
    split; [done|]. split; [done|]. split; [done|]. split; [|split].
    + unfold dispatch, bind, ret. by rewrite Hrun.
    + intros key Hkey. simpl. by rewrite assoc_set_ne.
    + right. exists p, entry, c, cfg. repeat split; try done.
      * simpl in Hset. intros ->. done.
      * simpl. by rewrite assoc_set_eq.
  - destruct (applyPlugins _ w1) as [[v|e] w3] eqn:Hrun; [|done].
    intros [= <-]. exists s, w1, opts.
    split; [done|]. split; [done|]. split; [done|]. split; [|split; [done|]].
    + unfold dispatch, bind, ret. by rewrite Hrun.
    + left. by exists platform.
Qed.

(** X12: the plugin code that a successful [init] itself enters, in
    order.  There is no handler on [modifyConfig] to enter; [init]
    enters every handler of [modifyPaths] once, then the setup functions
    of presets, then the setup functions of plugins, and last every
    handler that is on [onReady] by then, once.  The chains are run
    without options. *)
Theorem init_phases (w w' : World) :
  init w = (Ok tt, w') →
  chain_of w "modifyConfig" = [] ∧
  ∃ evsPaths asPresets asPlugins evsReady,
    trace w' = trace w ++ evsPaths
               ++ map (EvSetup Preset) asPresets ++ map (EvSetup Plugin) asPlugins
               ++ evsReady ∧
    Forall (entry_of "modifyPaths" VUndefined) evsPaths ∧
    hooks_of evsPaths ≡ₚ chain_of w "modifyPaths" ∧
    Forall (entry_of "onReady" VUndefined) evsReady ∧
    hooks_of evsReady ≡ₚ chain_of w' "onReady".
Proof.
  unfold init. intros Hrun. unfold bind at 1 in Hrun.
  destruct (initConfig w) as [[[]|e] w1] eqn:Hconfig; [|done].
  unfold bind at 1 in Hrun.
  destruct (initPaths w1) as [[[]|e] w2] eqn:Hpaths; [|done].
  unfold bind at 1 in Hrun.
  destruct (initPresetsAndPlugins w2) as [[[]|e] w3] eqn:Hresolve; [|done].
  unfold bind at 1 in Hrun.
  destruct (applyPlugins (VStr "onReady") w3) as [[v|e] w4] eqn:Hready; [|done].
  injection Hrun as <-.
  unfold initConfig, bind, this, update, lift in Hconfig. simpl in Hconfig.
  destruct (newConfig _ _ _) as [c|e]; [|done].
  destruct (applyPlugins _ _) as [[v1|e] w1'] eqn:Hmodify in Hconfig; [|done].
  injection Hconfig as <-.
  pose proof Hmodify as Harray.
  apply (applyPlugins_entries _ "modifyConfig" (config_initialConfig c) VUndefined)
    in Hmodify as (Hk1 & evs1 & Htr1 & _ & _); [|done]. simpl in Hk1, Htr1.
  unfold initPaths in Hpaths. unfold bind at 1, this in Hpaths. simpl in Hpaths.
  rewrite Hk1 in Hpaths. simpl in Hpaths. unfold bind at 1, ret at 1 in Hpaths.
  unfold bind at 1, lift at 1 in Hpaths.
  destruct (get_prop v1 "sourceRoot") as [sourceRoot|e] eqn:Hroot; [|done].
  unfold bind at 1, lift at 1 in Hpaths.
  destruct (join _ sourceRoot) as [sourcePath|e] eqn:Hjoin; [|done].
  assert (Hnone : chain_of w "modifyConfig" = []).
  { destruct (chain_of w "modifyConfig") as [|h hs] eqn:Hchain; [done|]. exfalso.
    apply (applyPlugins_resolves_to_array _ "modifyConfig" (config_initialConfig c)
             VUndefined) in Harray; [|done|].
    - subst v1. simpl in Hroot. injection Hroot as <-. done.
    - unfold chain_of in *. simpl. by rewrite Hchain. }
  assert (Hevs1 : evs1 = []).
  { rewrite applyPlugins_unfold in Harray. simpl in Harray.
    unfold chain_of in Harray, Hnone. simpl in Harray. rewrite Hnone in Harray.
    injection Harray as _ <-. simpl in Htr1.
    apply (f_equal (@length _)) in Htr1. rewrite length_app in Htr1.
    destruct evs1; [done|]. simpl in Htr1. lia. }
  subst evs1. rewrite app_nil_r in Htr1.
  unfold bind at 1, lift at 1 in Hpaths.
  destruct (get_prop v1 "outputRoot") as [outputRoot|e]; [|done].
  unfold bind at 1, lift at 1 in Hpaths.
  destruct (join _ outputRoot) as [outputPath|e]; [|done].
  unfold bind at 1 in Hpaths.
  destruct (applyPlugins _ _) as [[v2|e] w2'] eqn:Hmodify2 in Hpaths; [|done].
  unfold update in Hpaths. injection Hpaths as <-.
  match type of Hmodify2 with applyPlugins (VObj [_; (_, ?iv)]) _ = _ =>
    apply (applyPlugins_entries _ "modifyPaths" iv VUndefined)
      in Hmodify2 as (Hk2 & evs2 & Htr2 & Hall2 & Hperm2); [|done] end.
  simpl in Hk2, Htr2.
  apply initPresetsAndPlugins_spec in Hresolve as (ps & pls & r & _ & _ & ->).
  apply (applyPlugins_entries _ "onReady" VUndefined VUndefined)
    in Hready as (Hk4 & evs4 & Htr4 & Hall4 & Hperm); [|done].
  simpl in Hk4, Htr4.
  split; [done|].
  exists evs2, (flat_map preset_sequence ps), (flat_map extra_sequence ps ++ pls), evs4.
  split; [|split; [done|split; [|split; [done|]]]].
  - rewrite Htr4, Htr2, Htr1. by rewrite <- !app_assoc.
  - rewrite (Hperm2 (ex_intro _ v2 eq_refl)). unfold chain_of. simpl. done.
  - rewrite (Hperm (ex_intro _ v eq_refl)). unfold chain_of. by rewrite Hk4.
Qed.

(** X18: on a kernel without [modifyConfig] and [modifyPaths] handlers,
    as a freshly constructed one is, [init] succeeds only if the loaded
    configuration has strings for [sourceRoot] and [outputRoot]; the
    initial configuration is then the loaded one, and the paths are the
    application path, the path of the configuration file, and the two
    roots joined to the application path. *)
Theorem init_seeds_config_and_paths (w w' : World) :
  chain_of w "modifyConfig" = [] →
  chain_of w "modifyPaths" = [] →
  init w = (Ok tt, w') →
  ∃ c sourceRoot outputRoot,
    newConfig (appPath (kernel w)) (isWatch (kernel w)) (isProduction (kernel w)) = Ok c ∧
    config (kernel w') = Some c ∧
    initialConfig (kernel w') = config_initialConfig c ∧
    get_prop (config_initialConfig c) "sourceRoot" = Ok (VStr sourceRoot) ∧
    get_prop (config_initialConfig c) "outputRoot" = Ok (VStr outputRoot) ∧
    paths (kernel w')
    = VObj [("appPath", VStr (appPath (kernel w)));
            ("configPath", configPath c);
            ("sourcePath", VStr (path_join (appPath (kernel w)) sourceRoot));
            ("outputPath", VStr (path_join (appPath (kernel w)) outputRoot))].
Proof.
  intros Hnone1 Hnone2. unfold init. intros Hrun. unfold bind at 1 in Hrun.
  destruct (initConfig w) as [[[]|e] w1] eqn:Hconfig; [|done].
  unfold bind at 1 in Hrun.
  destruct (initPaths w1) as [[[]|e] w2] eqn:Hpaths; [|done].
  unfold bind at 1 in Hrun.
  destruct (initPresetsAndPlugins w2) as [[[]|e] w3] eqn:Hresolve; [|done].
  unfold bind at 1 in Hrun.
  destruct (applyPlugins (VStr "onReady") w3) as [[v|e] w4] eqn:Hready; [|done].
  injection Hrun as <-.
  unfold initConfig, bind, this, update, lift in Hconfig. simpl in Hconfig.
  destruct (newConfig _ _ _) as [c|e] eqn:Hc; [|done].
  rewrite applyPlugins_unfold in Hconfig. simpl in Hconfig.
  unfold chain_of in Hnone1, Hnone2, Hconfig. simpl in Hconfig.
  rewrite Hnone1 in Hconfig. injection Hconfig as <-.
  unfold initPaths in Hpaths. unfold bind at 1, this in Hpaths. simpl in Hpaths.
  unfold bind at 1, ret at 1 in Hpaths.
  unfold bind at 1, lift at 1 in Hpaths.
  destruct (get_prop (config_initialConfig c) "sourceRoot") as [sourceRoot|e] eqn:Hsr;
    [|done].
  unfold bind at 1, lift at 1 in Hpaths.
  destruct sourceRoot as [| | | |sourceRoot| | |]; try done. simpl in Hpaths.
  unfold bind at 1, lift at 1 in Hpaths.
  destruct (get_prop (config_initialConfig c) "outputRoot") as [outputRoot|e] eqn:Hor;
    [|done].
  unfold bind at 1, lift at 1 in Hpaths.
  destruct outputRoot as [| | | |outputRoot| | |]; try done. simpl in Hpaths.
  unfold bind at 1 in Hpaths.
  rewrite applyPlugins_unfold in Hpaths. simpl in Hpaths.
  unfold chain_of in Hpaths. simpl in Hpaths. rewrite Hnone2 in Hpaths.
  unfold update in Hpaths. injection Hpaths as <-.
  apply initPresetsAndPlugins_spec in Hresolve as (ps & pls & r & _ & _ & ->).
  apply applyPlugins_frame in Hready as (Hk4 & _). simpl in Hk4.
  exists c, sourceRoot, outputRoot. rewrite Hk4. simpl. done.
Qed.

End MoreRun.

(** ** init, called again *)


















Section Again.
Context `{Externals}.






End Again.

(** * The properties on concrete kernels *)

Lemma returned_world {A} (c : M A) (w : World) (a : A) :
  fst (c w) = Ok a → c w = (Ok a, snd (c w)).
Proof. destruct (c w) as [o w']. simpl. by intros ->. Qed.

(** ** The hook runner *)

Lemma applyPlugins_no_handlers_identity_witness :
  applyPlugins (VObj [("name", VStr "modifyConfig"); ("initialVal", example_config)])
    (world_with [hook_h1] [])
  = (Ok example_config, world_with [hook_h1] []).
Proof.
  apply (applyPlugins_no_handlers_identity _ _ "modifyConfig" _ VUndefined);
    vm_compute; reflexivity.
Defined.

Lemma applyPlugins_collects_results_witness :
  applyPlugins (VObj [("name", VStr "chain"); ("initialVal", VRef 0%nat)])
    (world_with [hook_h1; hook_h2] [[VNum 0]])
  = (Ok (VRef 1%nat),
     {| kernel := kernel (world_with [hook_h1; hook_h2] [[VNum 0]]);
        store := [[VNum 0]; [VNum 1; VNum 2]];
        trace := [EvHook "chain" hook_h1 (VRef 0%nat) VUndefined;
                  EvHook "chain" hook_h2 (VRef 1%nat) VUndefined] |}).
Proof.
  apply (applyPlugins_collects_results _ _ "chain" (VRef 0%nat) VUndefined).
  - reflexivity.
  - vm_compute. discriminate.
  - exists [hook_h1; hook_h2], [VNum 1; VNum 2].
    split; [vm_compute; reflexivity|]. split; [|split; reflexivity].
    split; [reflexivity|].
    intros [|[|i]] h Hi; simpl in Hi; try discriminate;
      injection Hi as <-; eexists; split; reflexivity.
Defined.

Lemma applyPlugins_handler_throw_aborts_witness :
  applyPlugins (VStr "chain") (world_with [hook_h1; hook_boom; hook_h2] [])
  = (Throw (EThrown (VStr "boom")),
     {| kernel := kernel (world_with [hook_h1; hook_boom; hook_h2] []);
        store := [[VNum 1]];
        trace := [EvHook "chain" hook_h1 VUndefined VUndefined;
                  EvHook "chain" hook_boom (VRef 0%nat) VUndefined] |}).
Proof.
  apply (applyPlugins_handler_throw_aborts
           (world_with [hook_h1; hook_boom; hook_h2] []) (VStr "chain")
           "chain" VUndefined VUndefined [hook_h1] [hook_h2] hook_boom [VNum 1]).
  - reflexivity.
  - vm_compute. reflexivity.
  - split; [reflexivity|].
    intros [|i] h Hi; simpl in Hi; try discriminate.
    injection Hi as <-. eexists; split; reflexivity.
  - reflexivity.
Defined.

Lemma applyPlugins_stage_then_registration_order_witness :
  execution_order (chain_of (world_with [hook_h1; hook_h2; hook_h3] []) "chain")
  = Ok [hook_h1; hook_h3; hook_h2] ∧
  applyPlugins (VStr "chain") (world_with [hook_h1; hook_h2; hook_h3] [])
  = (Ok (VRef 0%nat),
     {| kernel := kernel (world_with [hook_h1; hook_h2; hook_h3] []);
        store := [[VNum 1; VNum 3; VNum 2]];
        trace := [EvHook "chain" hook_h1 VUndefined VUndefined;
                  EvHook "chain" hook_h3 (VRef 0%nat) VUndefined;
                  EvHook "chain" hook_h2 (VRef 0%nat) VUndefined] |}).
Proof.
  apply (applyPlugins_stage_then_registration_order
           (world_with [hook_h1; hook_h2; hook_h3] []) (VStr "chain")
           "chain" VUndefined VUndefined hook_h1 hook_h2 hook_h3);
    try reflexivity; try discriminate.
  left. vm_compute. reflexivity.
Defined.

(** The results array starts empty and the seed is left out of it; and
    without an initial value the first handler is called on
    [undefined]. *)
Lemma applyPlugins_result_leaves_out_initialVal :
  applyPlugins (VObj [("name", VStr "chain"); ("initialVal", VRef 0%nat)])
    (world_with [hook_h1] [[VNum 0]])
  = (Ok (VRef 1%nat),
     {| kernel := kernel (world_with [hook_h1] [[VNum 0]]);
        store := [[VNum 0]; [VNum 1]];
        trace := [EvHook "chain" hook_h1 (VRef 0%nat) VUndefined] |}) ∧
  applyPlugins (VStr "chain") (world_with [hook_h1] [])
  = (Ok (VRef 0%nat),
     {| kernel := kernel (world_with [hook_h1] []);
        store := [[VNum 1]];
        trace := [EvHook "chain" hook_h1 VUndefined VUndefined] |}) ∧
  ¬ accumulator_seeded_with_initialVal.
Proof.
  assert (Hrun : applyPlugins (VObj [("name", VStr "chain"); ("initialVal", VRef 0%nat)])
                   (world_with [hook_h1] [[VNum 0]])
                 = (Ok (VRef 1%nat),
                    {| kernel := kernel (world_with [hook_h1] [[VNum 0]]);
                       store := [[VNum 0]; [VNum 1]];
                       trace := [EvHook "chain" hook_h1 (VRef 0%nat) VUndefined] |}))
    by (vm_compute; reflexivity).
  split; [exact Hrun|]. split; [vm_compute; reflexivity|].
  intros Hclaim.
  edestruct (Hclaim (world_with [hook_h1] [[VNum 0]])
               (VObj [("name", VStr "chain"); ("initialVal", VRef 0%nat)])
               "chain" (VRef 0%nat) VUndefined [VNum 0]) as (rs & Hlen & Hc).
  - reflexivity.
  - vm_compute. discriminate.
  - reflexivity.
  - exact Hrun.
  - simpl in Hc. injection Hc as Hc. destruct rs; discriminate.
Defined.

(** ** Resolution *)

(** C1: a preset declared twice.  Preset [p] declares preset [q], and
    [q] is declared at top level as well.  Resolution fails on the
    second [q], but only after the setup function of that second [q]
    has been entered: it was entered twice, and the hook it taps is
    there twice. *)
Theorem duplicate_preset_setup_entered_before_refusal :
  fst (@init externals_duplicate_preset (@fresh_world externals_duplicate_preset))
  = Throw (EPluginRegistered "/presets/q.js") ∧
  ids_of (setups_of (trace
    (snd (@init externals_duplicate_preset (@fresh_world externals_duplicate_preset)))))
  = [(Preset, "/presets/p.js"); (Preset, "/presets/q.js"); (Preset, "/presets/q.js")] ∧
  length <$> hooks (registry (kernel
    (snd (@init externals_duplicate_preset (@fresh_world externals_duplicate_preset)))))
    !! "build"
  = Some 2%nat.
Proof. vm_compute. done. Qed.

(** The same with a plugin: the second one is refused before its setup
    function is entered. *)
Lemma duplicate_plugin_refused_before_setup :
  fst (@init externals_duplicate_plugin (@fresh_world externals_duplicate_plugin))
  = Throw (EPluginRegistered "/plugins/a.js") ∧
  ids_of (setups_of (trace
    (snd (@init externals_duplicate_plugin (@fresh_world externals_duplicate_plugin)))))
  = [(Plugin, "/plugins/a.js")] ∧
  length <$> hooks (registry (kernel
    (snd (@init externals_duplicate_plugin (@fresh_world externals_duplicate_plugin)))))
    !! "build"
  = Some 1%nat.
Proof. vm_compute. done. Qed.

Lemma resolvePlugins_drains_extraPlugins_witness :
  extraPlugins (kernel (snd (@resolvePresets externals_nesting (VStr "presets")
                               (@fresh_world externals_nesting))))
  = [plugin_r] ∧
  extraPlugins (kernel
    (snd (@resolvePlugins externals_nesting (VStr "plugins")
            (snd (@resolvePresets externals_nesting (VStr "presets")
                    (@fresh_world externals_nesting))))))
  = [].
Proof.
  split; [vm_compute; reflexivity|].
  apply (@resolvePlugins_drains_extraPlugins externals_nesting (VStr "plugins")
           (snd (@resolvePresets externals_nesting (VStr "presets")
                   (@fresh_world externals_nesting)))).
  apply returned_world. vm_compute. reflexivity.
Defined.

Lemma nested_preset_first_nested_plugin_deferred_witness :
  ids_of (setups_of (trace
    (snd (bind (@resolvePresets externals_nesting (VStr "presets"))
               (λ _, @resolvePlugins externals_nesting (VStr "plugins"))
               (@fresh_world externals_nesting)))))
  = [(Preset, "/presets/nesting.js"); (Preset, "/presets/q.js");
     (Preset, "/presets/sibling.js");
     (Plugin, "/plugins/r.js"); (Plugin, "/plugins/b.js")].
Proof.
  destruct (@nested_preset_first_nested_plugin_deferred externals_nesting
              (VStr "presets") (VStr "plugins") (@fresh_world externals_nesting)
              (snd (bind (@resolvePresets externals_nesting (VStr "presets"))
                         (λ _, @resolvePlugins externals_nesting (VStr "plugins"))
                         (@fresh_world externals_nesting)))
              [] [preset_sibling] [preset_q] [plugin_r] [plugin_b]
              preset_nesting preset_q plugin_r) as (Htrace & _ & _).
  - reflexivity.
  - reflexivity.
  - reflexivity.
  - apply list_elem_of_here.
  - reflexivity.
  - apply list_elem_of_here.
  - apply (returned_world (bind _ _)). vm_compute. reflexivity.
  - rewrite Htrace. vm_compute. reflexivity.
Defined.

(** ** init and run *)






Lemma run_unregistered_platform_fails_witness :
  @run externals_build build_for_unregistered_platform (@fresh_world externals_build)
  = (Throw (ENoPlatform (VStr "unregistered-platform")),
     snd (@started externals_build (@fresh_world externals_build))).
Proof.
  apply (@run_unregistered_platform_fails externals_build
           build_for_unregistered_platform (VStr "build")
           (VObj [("platform", VStr "unregistered-platform")]) "unregistered-platform"
           (@fresh_world externals_build)
           (snd (@started externals_build (@fresh_world externals_build)))
           (fst (@started externals_build (@fresh_world externals_build)))).
  - reflexivity.
  - reflexivity.
  - discriminate.
  - apply surjective_pairing.
  - intros _. vm_compute. reflexivity.
Defined.

Lemma run_without_opts_fails_witness :
  @run externals_build (VStr "build") (@fresh_world externals_build)
  = (Throw (ETypeError "platform"),
     snd (@started externals_build (@fresh_world externals_build))) ∧
  @run externals_build build_with_number (@fresh_world externals_build)
  = dispatch (VStr "build") (VNum 1)
      (snd (@started externals_build (@fresh_world externals_build))).
Proof.
  split.
  - apply (proj1 (@run_without_opts_fails externals_build (VStr "build") (VStr "build")
                    VUndefined (@fresh_world externals_build)
                    (snd (@started externals_build (@fresh_world externals_build)))
                    (fst (@started externals_build (@fresh_world externals_build)))
                    eq_refl (surjective_pairing _))).
    left. reflexivity.
  - apply (proj2 (@run_without_opts_fails externals_build build_with_number (VStr "build")
                    (VNum 1) (@fresh_world externals_build)
                    (snd (@started externals_build (@fresh_world externals_build)))
                    (fst (@started externals_build (@fresh_world externals_build)))
                    eq_refl (surjective_pairing _)) VUndefined);
      vm_compute; reflexivity.
Defined.

Lemma thrown_world {A} (c : M A) (w : World) (e : error) :
  fst (c w) = Throw e → c w = (Throw e, snd (c w)).
Proof. destruct (c w) as [o w']. simpl. by intros ->. Qed.

(** A command named [onStart]: its handler is entered by the [onStart]
    chain, before [run] looks at the platform. *)
Lemma run_enters_onStart_command_before_platform_check :
  fst (@run externals_onStart onStart_for_unregistered_platform
         (@fresh_world externals_onStart))
  = Throw (ENoPlatform (VStr "unregistered-platform")) ∧
  trace (snd (@run externals_onStart onStart_for_unregistered_platform
                (@fresh_world externals_onStart)))
  = [EvSetup Plugin plugin_onStart; EvHook "onStart" hook_onStart VUndefined VUndefined] ∧
  ¬ @fails_before_command_handlers externals_onStart.
Proof.
  assert (Hrun : fst (@run externals_onStart onStart_for_unregistered_platform
                        (@fresh_world externals_onStart))
                 = Throw (ENoPlatform (VStr "unregistered-platform")))
    by (vm_compute; reflexivity).
  assert (Htrace : trace (snd (@run externals_onStart onStart_for_unregistered_platform
                                 (@fresh_world externals_onStart)))
                   = [EvSetup Plugin plugin_onStart;
                      EvHook "onStart" hook_onStart VUndefined VUndefined])
    by reflexivity.
  split; [exact Hrun|]. split; [exact Htrace|].
  intros Hclaim.
  assert (Hnone : Forall (λ ev, ¬ enters "onStart" ev)
                    [EvSetup Plugin plugin_onStart;
                     EvHook "onStart" hook_onStart VUndefined VUndefined]).
  { apply (Hclaim (@fresh_world externals_onStart) onStart_for_unregistered_platform
             "onStart" (VObj [("platform", VStr "unregistered-platform")])
             "unregistered-platform" (ENoPlatform (VStr "unregistered-platform"))
             (snd (@run externals_onStart onStart_for_unregistered_platform
                     (@fresh_world externals_onStart)))).
    - reflexivity.
    - reflexivity.
    - intros Hp. discriminate Hp.
    - vm_compute. reflexivity.
    - apply thrown_world. exact Hrun.
    - exact Htrace. }
  apply Forall_cons in Hnone as [_ Hnone]. apply Forall_cons in Hnone as [Hnone _].
  apply Hnone. exists hook_onStart, VUndefined, VUndefined. reflexivity.
Defined.

(** [opts] that are not an object are dispatched as well; and the
    handler of a command named [onStart] is entered before the bare
    [run('onStart')] fails. *)
Lemma run_dispatches_opts_that_are_no_object :
  fst (@run externals_build build_with_number (@fresh_world externals_build)) = Ok tt ∧
  trace (snd (@run externals_build build_with_number (@fresh_world externals_build)))
  = [EvSetup Plugin plugin_build; EvHook "build" hook_build VUndefined (VNum 1)] ∧
  ¬ @dispatches_only_with_opts_object externals_build ∧
  fst (@run externals_onStart (VStr "onStart") (@fresh_world externals_onStart))
  = Throw (ETypeError "platform") ∧
  trace (snd (@run externals_onStart (VStr "onStart") (@fresh_world externals_onStart)))
  = [EvSetup Plugin plugin_onStart; EvHook "onStart" hook_onStart VUndefined VUndefined] ∧
  ¬ @bare_run_fails_before_command_handlers externals_onStart.
Proof.
  assert (Hrun : fst (@run externals_build build_with_number (@fresh_world externals_build))
                 = Ok tt) by (vm_compute; reflexivity).
  assert (Hbare : fst (@run externals_onStart (VStr "onStart")
                         (@fresh_world externals_onStart))
                  = Throw (ETypeError "platform")) by (vm_compute; reflexivity).
  assert (Htrace : trace (snd (@run externals_onStart (VStr "onStart")
                                 (@fresh_world externals_onStart)))
                   = [EvSetup Plugin plugin_onStart;
                      EvHook "onStart" hook_onStart VUndefined VUndefined])
    by reflexivity.
  split; [exact Hrun|]. split; [reflexivity|]. split; [|split; [exact Hbare|split]].
  - intros Hclaim.
    destruct (Hclaim (@fresh_world externals_build) build_with_number (VStr "build")
                (VNum 1)
                (snd (@run externals_build build_with_number (@fresh_world externals_build)))
                eq_refl (returned_world _ _ _ Hrun)) as [fields Hfields].
    discriminate Hfields.
  - exact Htrace.
  - intros Hclaim.
    assert (Hnone : Forall (λ ev, ¬ enters "onStart" ev)
                      [EvSetup Plugin plugin_onStart;
                       EvHook "onStart" hook_onStart VUndefined VUndefined]).
    { apply (Hclaim (@fresh_world externals_onStart) "onStart" (ETypeError "platform")
               (snd (@run externals_onStart (VStr "onStart")
                       (@fresh_world externals_onStart)))).
      - vm_compute. reflexivity.
      - apply thrown_world. exact Hbare.
      - exact Htrace. }
    apply Forall_cons in Hnone as [_ Hnone]. apply Forall_cons in Hnone as [Hnone _].
    apply Hnone. exists hook_onStart, VUndefined, VUndefined. reflexivity.
Defined.

(** ** The further properties on concrete kernels *)

Lemma applyPlugins_without_name_throws_witness :
  applyPlugins (VObj [("name", VNum 5)]) (world_with [hook_h1] [])
  = (Throw EInvalidName, world_with [hook_h1] []).
Proof.
  apply (applyPlugins_without_name_throws (VObj [("name", VNum 5)])).
  - reflexivity.
  - intros s Hs. discriminate Hs.
Defined.

Lemma applyPlugins_enters_each_handler_once_witness :
  ∃ ord,
    execution_order (chain_of (world_with [hook_h1; hook_h2; hook_h3] []) "chain") = Ok ord ∧
    ord ≡ₚ chain_of (world_with [hook_h1; hook_h2; hook_h3] []) "chain" ∧
    trace (snd (applyPlugins (VStr "chain") (world_with [hook_h1; hook_h2; hook_h3] [])))
    = trace (world_with [hook_h1; hook_h2; hook_h3] [])
      ++ calls "chain" VUndefined VUndefined
           (length (store (world_with [hook_h1; hook_h2; hook_h3] []))) ord.
Proof.
  apply (applyPlugins_enters_each_handler_once (VStr "chain") "chain" VUndefined VUndefined
           (VRef 0%nat) (world_with [hook_h1; hook_h2; hook_h3] [])).
  - reflexivity.
  - apply returned_world. vm_compute. reflexivity.
Defined.

Lemma execution_order_by_stage_witness :
  ∃ ord, execution_order [hook_h1; hook_h2; hook_h3] = Ok ord ∧
    StronglySorted (λ a b, stage_of a ≤ stage_of b) ord ∧
    ∀ s, at_stage s ord = at_stage s [hook_h1; hook_h2; hook_h3].
Proof.
  apply (execution_order_by_stage [hook_h1; hook_h2; hook_h3]).
  repeat constructor; discriminate.
Defined.

Lemma before_runs_ahead_of_named_plugin_witness :
  ∃ a b, [] = a ++ b ∧
         execution_order ([hook_h1; hook_h2] ++ [hook_before_one])
         = Ok (a ++ hook_before_one :: b ++ hook_h1 :: [hook_h2]).
Proof.
  apply (before_runs_ahead_of_named_plugin [hook_h1; hook_h2] [] [hook_h2]
           hook_before_one hook_h1 "/plugins/one.js").
  - vm_compute. reflexivity.
  - reflexivity.
  - discriminate.
  - reflexivity.
  - repeat constructor. discriminate.
Defined.

Lemma before_absent_plugin_runs_first_witness :
  execution_order ([hook_h1; hook_h2] ++ [hook_before_absent])
  = Ok (hook_before_absent :: [hook_h1; hook_h2]).
Proof.
  apply (before_absent_plugin_runs_first [hook_h1; hook_h2] [hook_h1; hook_h2]
           hook_before_absent "/plugins/absent.js").
  - vm_compute. reflexivity.
  - reflexivity.
  - discriminate.
  - repeat constructor; discriminate.
Defined.

Lemma registerPlugin_once_witness :
  ∃ w', registerPlugin plugin_a (world_with [] []) = (Ok tt, w') ∧
        plugins (kernel w') !! plugin_id plugin_a = Some plugin_a ∧
        (∀ i, i ≠ plugin_id plugin_a →
              plugins (kernel w') !! i = plugins (kernel (world_with [] [])) !! i) ∧
        ∀ q, plugin_id q = plugin_id plugin_a →
             registerPlugin q w' = (Throw (EPluginRegistered (plugin_id plugin_a)), w').
Proof.
  apply (registerPlugin_once plugin_a (world_with [] [])). apply lookup_empty.
Defined.

Lemma duplicate_plugin_stops_queue_witness :
  ∃ w', for_each initPlugin ([plugin_b] ++ plugin_b :: [plugin_a]) (world_with [] [])
        = (Throw (EPluginRegistered (plugin_id plugin_b)), w') ∧
        trace w' = trace (world_with [] []) ++ map (EvSetup Plugin) [plugin_b].
Proof.
  apply (duplicate_plugin_stops_queue [plugin_b] [plugin_a] plugin_b (world_with [] [])
           (snd (for_each initPlugin [plugin_b] (world_with [] [])))).
  - apply returned_world. vm_compute. reflexivity.
  - apply is_Some_alt. vm_compute. exact I.
Defined.

Lemma registered_id_refused_witness :
  (∃ w', initPlugin preset_q (snd (initPreset preset_q (world_with [] [])))
         = (Throw (EPluginRegistered (plugin_id preset_q)), w') ∧
         trace w' = trace (snd (initPreset preset_q (world_with [] []))) ∧
         plugins (kernel w') = plugins (kernel (snd (initPreset preset_q (world_with [] [])))) ∧
         extraPlugins (kernel w')
         = extraPlugins (kernel (snd (initPreset preset_q (world_with [] []))))) ∧
  (∃ e w', initPreset preset_q (snd (initPreset preset_q (world_with [] [])))
           = (Throw e, w') ∧
           trace w' = trace (snd (initPreset preset_q (world_with [] [])))
                      ++ [EvSetup Preset preset_q] ∧
           plugins (kernel w') = plugins (kernel (snd (initPreset preset_q (world_with [] [])))) ∧
           extraPlugins (kernel w')
           = extraPlugins (kernel (snd (initPreset preset_q (world_with [] [])))) ∧
           (e = EPluginRegistered (plugin_id preset_q) ∨
            ∃ ctx r, (plugin_apply preset_q ctx (plugin_opts preset_q) r).2 = Throw e)).
Proof.
  apply (registered_id_refused preset_q (snd (initPreset preset_q (world_with [] [])))).
  apply is_Some_alt. vm_compute. exact I.
Defined.

Lemma initPresetsAndPlugins_registers_each_once_witness :
  ∃ asPresets asPlugins,
    trace (snd (@initPresetsAndPlugins externals_nesting (configured_world "chain" [])))
    = trace (configured_world "chain" [])
      ++ map (EvSetup Preset) asPresets ++ map (EvSetup Plugin) asPlugins ∧
    NoDup (map plugin_id (asPresets ++ asPlugins)) ∧
    (∀ i p, plugins (kernel (snd (@initPresetsAndPlugins externals_nesting
                                    (configured_world "chain" [])))) !! i = Some p ↔
            p ∈ asPresets ++ asPlugins ∧ plugin_id p = i) ∧
    extraPlugins (kernel (snd (@initPresetsAndPlugins externals_nesting
                                 (configured_world "chain" [])))) = [].
Proof.
  apply (@initPresetsAndPlugins_registers_each_once externals_nesting
           (configured_world "chain" [])).
  apply returned_world. vm_compute. reflexivity.
Defined.

Lemma throwing_setup_registers_plugin_not_preset_witness :
  (∃ w', initPlugin (module_throwing "/plugins/bad.js" (VStr "bad")) (world_with [] [])
         = (Throw (EThrown (VStr "bad")), w') ∧
         plugins (kernel w') !! "/plugins/bad.js"
         = Some (module_throwing "/plugins/bad.js" (VStr "bad")) ∧
         trace w' = [EvSetup Plugin (module_throwing "/plugins/bad.js" (VStr "bad"))]) ∧
  (∃ w', initPreset (module_throwing "/plugins/bad.js" (VStr "bad")) (world_with [] [])
         = (Throw (EThrown (VStr "bad")), w') ∧
         plugins (kernel w') = ∅ ∧
         extraPlugins (kernel w') = [] ∧
         trace w' = [EvSetup Preset (module_throwing "/plugins/bad.js" (VStr "bad"))]).
Proof.
  apply (throwing_setup_registers_plugin_not_preset
           (module_throwing "/plugins/bad.js" (VStr "bad")) (EThrown (VStr "bad"))
           (world_with [] [])).
  - apply lookup_empty.
  - intros ctx r. reflexivity.
Defined.

Lemma resolvePlugins_failure_keeps_queue_witness :
  (extraPlugins (kernel (snd (@resolvePlugins externals_duplicate_plugin (VStr "plugins")
                                (world_queued [plugin_r]))))
   = extraPlugins (kernel (world_queued [plugin_r])) ∧
   (@resolvePresetsOrPlugins externals_duplicate_plugin (VStr "plugins") Plugin
    = Throw (EPluginRegistered "/plugins/a.js") ∧
    snd (@resolvePlugins externals_duplicate_plugin (VStr "plugins") (world_queued [plugin_r]))
    = world_queued [plugin_r] ∨
    ∃ allPlugins n,
      @resolvePresetsOrPlugins externals_duplicate_plugin (VStr "plugins") Plugin
      = Ok allPlugins ∧
      trace (snd (@resolvePlugins externals_duplicate_plugin (VStr "plugins")
                    (world_queued [plugin_r])))
      = trace (world_queued [plugin_r])
        ++ map (EvSetup Plugin)
             (take n (extraPlugins (kernel (world_queued [plugin_r])) ++ allPlugins)))) ∧
  extraPlugins (kernel (snd (@resolvePlugins externals_duplicate_plugin (VStr "plugins")
                               (world_queued [plugin_r]))))
  = [plugin_r] ∧
  trace (snd (@resolvePlugins externals_duplicate_plugin (VStr "plugins")
                (world_queued [plugin_r])))
  = [EvSetup Plugin plugin_r; EvSetup Plugin plugin_a].
Proof.
  split; [|split; reflexivity].
  apply (@resolvePlugins_failure_keeps_queue externals_duplicate_plugin (VStr "plugins")
           (EPluginRegistered "/plugins/a.js") (world_queued [plugin_r])).
  apply thrown_world. vm_compute. reflexivity.
Defined.

Lemma init_phases_witness :
  (chain_of (configured_world "modifyPaths" [hook_paths]) "modifyConfig" = [] ∧
   ∃ evsPaths asPresets asPlugins evsReady,
     trace (snd (@init externals_ready (configured_world "modifyPaths" [hook_paths])))
     = trace (configured_world "modifyPaths" [hook_paths]) ++ evsPaths
       ++ map (EvSetup Preset) asPresets ++ map (EvSetup Plugin) asPlugins ++ evsReady ∧
     Forall (entry_of "modifyPaths" VUndefined) evsPaths ∧
     hooks_of evsPaths ≡ₚ chain_of (configured_world "modifyPaths" [hook_paths]) "modifyPaths" ∧
     Forall (entry_of "onReady" VUndefined) evsReady ∧
     hooks_of evsReady
     ≡ₚ chain_of (snd (@init externals_ready (configured_world "modifyPaths" [hook_paths])))
          "onReady") ∧
  trace (snd (@init externals_ready (configured_world "modifyPaths" [hook_paths])))
  = [EvHook "modifyPaths" hook_paths
       (VObj [("appPath", VStr "/app"); ("configPath", VStr "/app/config/index.js");
              ("sourcePath", VStr "/app/src"); ("outputPath", VStr "/app/dist")])
       VUndefined;
     EvSetup Preset preset_nesting; EvSetup Preset preset_q; EvSetup Preset preset_sibling;
     EvSetup Plugin plugin_r; EvSetup Plugin plugin_ready;
     EvHook "onReady" hook_ready VUndefined VUndefined].
Proof.
  split; [|reflexivity].
  apply (@init_phases externals_ready (configured_world "modifyPaths" [hook_paths])).
  apply returned_world. vm_compute. reflexivity.
Defined.

Lemma init_fails_with_modifyConfig_handlers_witness :
  ∃ e w', @init externals_one_plugin (configured_world "modifyConfig" [hook_h1])
          = (Throw e, w') ∧
          plugins (kernel w') = plugins (kernel (configured_world "modifyConfig" [hook_h1])) ∧
          registry (kernel w') = registry (kernel (configured_world "modifyConfig" [hook_h1])) ∧
          ∃ evs, trace w' = trace (configured_world "modifyConfig" [hook_h1]) ++ evs ∧
                 Forall (entry_of "modifyConfig" VUndefined) evs.
Proof.
  apply (@init_fails_with_modifyConfig_handlers externals_one_plugin
           (configured_world "modifyConfig" [hook_h1])).
  vm_compute. discriminate.
Defined.

Lemma run_unknown_command_fails_witness :
  @run externals_one_plugin (VStr "build") (@fresh_world externals_one_plugin)
  = (Throw (ENoCommand (VStr "build")),
     snd (@started externals_one_plugin (@fresh_world externals_one_plugin))).
Proof.
  apply (@run_unknown_command_fails externals_one_plugin (VStr "build") (VStr "build")
           VUndefined).
  - reflexivity.
  - apply (returned_world (@started externals_one_plugin)). vm_compute. reflexivity.
  - vm_compute. reflexivity.
Defined.

Lemma run_resolved_witness :
  ∃ s w1 opts',
    VStr "build" = VStr s ∧
    @started externals_h5 (@fresh_world externals_h5) = (Ok tt, w1) ∧
    is_Some (commands (registry (kernel w1)) !! s) ∧
    dispatch (VStr "build") opts' w1
    = (Ok tt, snd (@run externals_h5 build_for_h5 (@fresh_world externals_h5))) ∧
    (∀ key, key ≠ "config" →
            get_prop opts' key = get_prop (VObj [("platform", VStr "h5")]) key) ∧
    ((∃ platform, get_prop (VObj [("platform", VStr "h5")]) "platform" = Ok platform ∧
                  truthy platform = false ∧
                  opts' = VObj [("platform", VStr "h5")]) ∨
     (∃ p entry c cfg,
        get_prop (VObj [("platform", VStr "h5")]) "platform" = Ok (VStr p) ∧
        p ≠ EmptyString ∧
        platforms (registry (kernel w1)) !! p = Some entry ∧
        config (kernel w1) = Some c ∧
        @getConfigWithNamed externals_h5 c (VStr p) (useConfigName entry) = Ok cfg ∧
        get_prop opts' "config" = Ok cfg)).
Proof.
  apply (@run_resolved externals_h5 build_for_h5 (VStr "build")
           (VObj [("platform", VStr "h5")]) (@fresh_world externals_h5)).
  - reflexivity.
  - apply (returned_world (@run externals_h5 build_for_h5)). vm_compute. reflexivity.
Defined.

Lemma run_attaches_platform_config_witness :
  ∃ opts',
    @run externals_h5 build_for_h5 (@fresh_world externals_h5)
    = dispatch (VStr "build") opts'
        (snd (@started externals_h5 (@fresh_world externals_h5))) ∧
    get_prop opts' "config" = Ok (VObj [("platform", VStr "h5")]) ∧
    ∀ key, key ≠ "config" →
           get_prop opts' key = get_prop (VObj [("platform", VStr "h5")]) key.
Proof.
  apply (@run_attaches_platform_config externals_h5 build_for_h5 (VStr "build")
           (VObj [("platform", VStr "h5")]) "h5"
           {| platform_name := "h5"; useConfigName := "h5";
              platform_fn := returning VUndefined |}
           {| config_initialConfig := example_config;
              configPath := VStr "/app/config/index.js" |}
           (@fresh_world externals_h5)
           (snd (@started externals_h5 (@fresh_world externals_h5)))).
  - reflexivity.
  - apply (returned_world (@started externals_h5)). vm_compute. reflexivity.
  - vm_compute. reflexivity.
  - reflexivity.
  - discriminate.
  - vm_compute. reflexivity.
  - vm_compute. reflexivity.
Defined.

Lemma init_seeds_config_and_paths_witness :
  ∃ c sourceRoot outputRoot,
    @newConfig externals_one_plugin
      (appPath (kernel (@fresh_world externals_one_plugin)))
      (isWatch (kernel (@fresh_world externals_one_plugin)))
      (isProduction (kernel (@fresh_world externals_one_plugin))) = Ok c ∧
    config (kernel (snd (@init externals_one_plugin (@fresh_world externals_one_plugin))))
    = Some c ∧
    initialConfig (kernel (snd (@init externals_one_plugin
                                  (@fresh_world externals_one_plugin))))
    = config_initialConfig c ∧
    get_prop (config_initialConfig c) "sourceRoot" = Ok (VStr sourceRoot) ∧
    get_prop (config_initialConfig c) "outputRoot" = Ok (VStr outputRoot) ∧
    paths (kernel (snd (@init externals_one_plugin (@fresh_world externals_one_plugin))))
    = VObj [("appPath", VStr (appPath (kernel (@fresh_world externals_one_plugin))));
            ("configPath", configPath c);
            ("sourcePath",
             VStr (@path_join externals_one_plugin
                     (appPath (kernel (@fresh_world externals_one_plugin))) sourceRoot));
            ("outputPath",
             VStr (@path_join externals_one_plugin
                     (appPath (kernel (@fresh_world externals_one_plugin))) outputRoot))].
Proof.
  apply (@init_seeds_config_and_paths externals_one_plugin
           (@fresh_world externals_one_plugin)).
  - vm_compute. reflexivity.
  - vm_compute. reflexivity.
  - apply returned_world. vm_compute. reflexivity.
Defined.
